(** * Agent/environment engine of [utils/model.py]

    A shallow embedding of the fitting, evaluation and simulation wrapper,
    of the single-slot memory buffer and of the base and delta-rule agents.

    Modelling conventions
    - Python floats are idealised as the real numbers [R]; the values a
      float can take besides a real (nan, +inf, -inf) appear only where the
      code handles them on purpose (the floor of the log-prior, the missing
      cells of an output table).  Rounding, overflow and underflow are not
      modelled: a bound that rounding can turn into an equality is stated
      as a non-strict one.
    - A call that may raise returns a [result]; a method that mutates its
      receiver returns the new receiver.
    - A [pandas.DataFrame] is column-major: a list of named columns over the
      default index [0 .. nrows-1]. *)

From Stdlib Require Import Reals Lra Lia.
From stdpp Require Import gmap strings list pretty.

Local Open Scope R_scope.

(** ** Exceptions and results *)

Inductive exn :=
| KeyError (k : string)
| IndexError
| AttributeError (name : string)
| TypeError
| ValueError
| NotImplementedError.

Inductive result (A : Type) :=
| Ok (a : A)
| Raise (e : exn).
Arguments Ok {A} a.
Arguments Raise {A} e.

#[global] Instance result_ret : MRet result := λ A a, Ok a.
#[global] Instance result_bind : MBind result := λ A B f r,
  match r with
  | Ok a => f a
  | Raise e => Raise e
  end.
#[global] Instance result_fmap : FMap result := λ A B f r,
  match r with
  | Ok a => Ok (f a)
  | Raise e => Raise e
  end.

Definition raises {A} (r : result A) : Prop := ∃ e, r = Raise e.

(** [l[i]] on a Python list. *)
Definition index {A} (l : list A) (i : nat) : result A :=
  match l !! i with
  | Some x => Ok x
  | None => Raise IndexError
  end.

(** ** Module constants and auxiliary functions *)

Definition eps_ : R := / 10 ^ 13.
Definition max_ : R := 10 ^ 13.

(** [np.clip(x, a_min, a_max)], that is [minimum(a_max, maximum(x, a_min))]. *)
Definition np_clip (x a_min a_max : R) : R := Rmin a_max (Rmax x a_min).

Definition clip_exp (x : R) : R :=
  let x := np_clip x (- max_) 50 in
  exp x.

Definition sigmoid (x : R) : R := 1 / (1 + clip_exp (- x)).

(** [np.sum] of a list of reals. *)
Definition np_sum (l : list R) : R := foldr Rplus 0 l.

(** [scipy.special.softmax] on a one-dimensional array: the exponentials
    are shifted by the largest entry, whose reduction has no identity on
    an empty array. *)
Definition np_amax (l : list R) : result R :=
  match l with
  | [] => Raise ValueError
  | x :: l' => Ok (foldl Rmax x l')
  end.

Definition softmax (x : list R) : result (list R) :=
  x_max ← np_amax x;
  let exp_x_shifted := map (λ v, exp (v - x_max)) x in
  mret (map (λ e, e / np_sum exp_x_shifted) exp_x_shifted).

(** Elementwise product of two one-dimensional arrays under numpy's
    broadcasting rule: equal lengths, or one of the two of length one. *)
Definition np_mul (a b : list R) : result (list R) :=
  if decide (length a = length b) then Ok (zip_with Rmult a b)
  else match a, b with
       | _, [y] => Ok (map (λ x, x * y) a)
       | [x], _ => Ok (map (λ y, x * y) b)
       | _, _ => Raise ValueError
       end.

(** ** Python values held by the buffer and by table cells *)

Inductive value :=
| VNum (r : R)
| VStr (s : string).

(** ** Memory buffer *)

Module simpleBuffer.

Record t := Build { m : gmap string value }.

Definition init : t := {| m := ∅ |}.

(** [self.m = {k: m_dict[k] for k in m_dict.keys()}] *)
Definition push (m_dict : gmap string value) (self : t) : t :=
  {| m := map_imap (λ k _, m_dict !! k) m_dict |}.

(** What [sample] hands back: the value itself for one key, the list
    of values otherwise. *)
Inductive sampled :=
| One (v : value)
| Many (lst : list value).

Definition getitem (self : t) (k : string) : result value :=
  match m self !! k with
  | Some v => Ok v
  | None => Raise (KeyError k)
  end.

Definition sample (args : list string) (self : t) : result sampled :=
  lst ← mapM (getitem self) args;
  mret (match lst with
        | [v] => One v
        | _ => Many lst
        end).

End simpleBuffer.

(** ** Base agent *)

(** What Python evaluates the expression [NotImplementedError] to: the
    exception class, an ordinary object. *)
Inductive pyobject :=
| PyNone
| PyExceptionClass (e : exn).

Module baseAgent.

Record t := Build { mem : simpleBuffer.t }.

Definition voi : list string := [].

Definition load_params (params : list R) (self : t) : result pyobject :=
  Ok (PyExceptionClass NotImplementedError).

Definition _init_critic (self : t) : t := self.
Definition _init_actor (self : t) : t := self.
Definition _init_dists (self : t) : t := self.

Definition _init_believes (self : t) : t :=
  _init_dists (_init_actor (_init_critic self)).

Definition _init_buffer (self : t) : t := {| mem := simpleBuffer.init |}.

(** [__init__]: the value of [load_params] is dropped. *)
Definition new (params : list R) : result t :=
  let self := {| mem := simpleBuffer.init |} in
  _ ← load_params params self;
  mret (_init_buffer (_init_believes self)).

Definition learn (self : t) : result pyobject :=
  Ok (PyExceptionClass NotImplementedError).

Definition policy (m : list R) (self : t) : result pyobject :=
  Ok (PyExceptionClass NotImplementedError).

End baseAgent.

(** ** Delta-rule agent *)

(** Reading an attribute that no assignment has created yet. *)
Definition getattr {A} (name : string) (field : option A) : result A :=
  match field with
  | Some x => Ok x
  | None => Raise (AttributeError name)
  end.

Module RL.

(** The instance dictionary; [None] is an attribute not assigned yet. *)
Record t := Build {
  alpha : option R;
  beta : option R;
  p1 : option R;
  p_S : option (list R);
  o : option string;
  pi : option (list R);
  mem : option simpleBuffer.t
}.

Definition object : t := Build None None None None None None None.

Definition p_pbnds : list (R * R) := [(-10, - (15 / 100)); (-2, 2)].
Definition p_name : list string := ["alpha"; "beta"]%string.
Definition p_trans : list (R → R) :=
  [λ x, 1 / (1 + clip_exp (- x)); λ x, clip_exp x].
Definition n_params : nat := length p_name.
Definition voi : list string := [].

Definition load_params (params : list R) (self : t) : result t :=
  let params := zip_with (λ fn p, fn p) p_trans params in
  a ← index params 0;
  let self := Build (Some a) (beta self) (p1 self) (p_S self)
                    (o self) (pi self) (mem self) in
  b ← index params 1;
  mret (Build (alpha self) (Some b) (p1 self) (p_S self)
              (o self) (pi self) (mem self)).

Definition _init_critic (self : t) : t :=
  let p := 1 / 2 in
  Build (alpha self) (beta self) (Some p) (Some [1 - p; p])
        (o self) (pi self) (mem self).

Definition _init_actor (self : t) : t := self.
Definition _init_dists (self : t) : t := self.

Definition _init_believes (self : t) : t :=
  _init_dists (_init_actor (_init_critic self)).

Definition _init_buffer (self : t) : t :=
  Build (alpha self) (beta self) (p1 self) (p_S self)
        (o self) (pi self) (Some simpleBuffer.init).

(** [__init__(self, nA, params)]; [nA] is stored and never read. *)
Definition new (params : list R) : result t :=
  self ← load_params params object;
  mret (_init_buffer (_init_believes self)).

(** [self.mem.push(m_dict)], as the environment calls it. *)
Definition mem_push (m_dict : gmap string value) (self : t) : result t :=
  b ← getattr "mem" (mem self);
  mret (Build (alpha self) (beta self) (p1 self) (p_S self)
              (o self) (pi self) (Some (simpleBuffer.push m_dict b))).

Definition _learn_critic (self : t) : result t :=
  b ← getattr "mem" (mem self);
  r ← simpleBuffer.sample ["s"; "t_type"; "f_type"]%string b;
  '(s, _, _) ← match r with
               | simpleBuffer.Many [s; t; f] => Ok (s, t, f)
               | _ => Raise ValueError
               end;
  p ← getattr "p1" (p1 self);
  delta ← match s with
          | VNum s => Ok (s - p)
          | VStr _ => Raise TypeError
          end;
  let o' := if Rlt_dec 0 delta then "pos"%string else "neg"%string in
  a ← getattr "alpha" (alpha self);
  let p' := p + a * delta in
  mret (Build (alpha self) (beta self) (Some p') (Some [1 - p'; p'])
              (Some o') (pi self) (mem self)).

Definition learn (self : t) : result t := _learn_critic self.

Definition policy (m : list R) (self : t) : result (t * list R) :=
  b ← getattr "beta" (beta self);
  pS ← getattr "p_S" (p_S self);
  x ← np_mul (map (λ v, b * v) pS) m;
  pi' ← softmax x;
  mret (Build (alpha self) (beta self) (p1 self) (p_S self)
              (o self) (Some pi') (mem self), pi').

Definition get_pS1 (self : t) : result R :=
  pS ← getattr "p_S" (p_S self);
  index pS 1.

Definition get_pi1 (self : t) : result R :=
  pi' ← getattr "pi" (pi self);
  index pi' 1.

(** [eval(f'subj.get_{k}()')] on an instance of this class, for a name
    [k] that is an identifier, so that the expression is the call of the
    method [get_<k>]. *)
Definition get (k : string) (self : t) : result value :=
  if decide (k = "pS1"%string) then VNum <$> get_pS1 self
  else if decide (k = "pi1"%string) then VNum <$> get_pi1 self
  else Raise (AttributeError ("get_" +:+ k)).

End RL.

(** ** Floats with their special values, and priors *)

Inductive xfloat :=
| nan
| ninf
| fin (r : R)
| pinf.

Definition fadd (a b : xfloat) : xfloat :=
  match a, b with
  | nan, _ | _, nan => nan
  | pinf, ninf | ninf, pinf => nan
  | pinf, _ | _, pinf => pinf
  | ninf, _ | _, ninf => ninf
  | fin x, fin y => fin (x + y)
  end.

Definition fneg (a : xfloat) : xfloat :=
  match a with
  | nan => nan
  | ninf => pinf
  | fin x => fin (- x)
  | pinf => ninf
  end.

(** [np.max([a, b])]: the larger entry, nan as soon as one entry is. *)
Definition np_max2 (a b : xfloat) : xfloat :=
  match a, b with
  | nan, _ | _, nan => nan
  | pinf, _ | _, pinf => pinf
  | ninf, c | c, ninf => c
  | fin x, fin y => fin (Rmax x y)
  end.

(** The order of floats; nan compares with nothing. *)
Definition fle (a b : xfloat) : Prop :=
  match a, b with
  | nan, _ | _, nan => False
  | ninf, _ | _, pinf => True
  | fin x, fin y => x <= y
  | _, _ => False
  end.

(** The logarithm of a density, which lies in [[0, +inf]]. *)
Inductive logdens :=
| LNegInf
| LFin (r : R)
| LPosInf.

Definition float_of_logdens (d : logdens) : xfloat :=
  match d with
  | LNegInf => ninf
  | LFin r => fin r
  | LPosInf => pinf
  end.

(** A frozen [scipy.stats] distribution, through the one method read. *)
Record prior := { logpdf : R → logdens }.

(** ** Data frames *)

(** A cell; [None] is the missing value nan. *)
Definition cell := option value.

Definition row := list (string * cell).

Record DataFrame := {
  nrows : nat;
  columns : list (string * list cell)
}.

Definition column_names (df : DataFrame) : list string := (columns df).*1.

(** [df.loc[t, name]]: [name] must be a column and the label [t] in the
    index; the column is looked up first, then the label. *)
Definition loc (df : DataFrame) (t : nat) (name : string) : result cell :=
  match list_find (λ c, c.1 = name) (columns df) with
  | Some (_, (_, col)) =>
      if decide (t < nrows df)%nat then Ok (default None (col !! t))
      else Raise (KeyError (pretty t))
  | None => Raise (KeyError name)
  end.

(** [df.iterrows()]: the pairs of an index label and its row. *)
Definition iterrows (df : DataFrame) : list (nat * row) :=
  map (λ t, (t, map (λ c, (c.1, default None (c.2 !! t))) (columns df)))
      (seq 0 (nrows df)).

(** [pd.DataFrame(np.zeros([n, len(col)]) + np.nan, columns=col)] *)
Definition nan_frame (n : nat) (col : list string) : DataFrame :=
  {| nrows := n; columns := map (λ c, (c, replicate n None)) col |}.

(** [df.loc[t, name] = v] for a label [t] of the index: every column of
    that name is written; a name that is no column yet adds one. *)
Definition set_loc (t : nat) (name : string) (v : cell) (df : DataFrame)
  : DataFrame :=
  if decide (name ∈ column_names df) then
    {| nrows := nrows df;
       columns := map (λ c, if decide (c.1 = name)
                            then (c.1, <[t := v]> (c.2)) else c)
                      (columns df) |}
  else
    {| nrows := nrows df;
       columns := columns df ++ [(name, <[t := v]> (replicate (nrows df) None))] |}.

Definition all_nan (col : list cell) : bool :=
  forallb (λ c, bool_decide (c = None)) col.

(** [df.dropna(axis=1, how='all')] *)
Definition dropna_columns (df : DataFrame) : DataFrame :=
  {| nrows := nrows df;
     columns := filter (λ c, all_nan c.2 = false) (columns df) |}.

(** [df.drop(columns=v)] *)
Definition drop_column (v : string) (df : DataFrame) : DataFrame :=
  {| nrows := nrows df;
     columns := filter (λ c, c.1 ≠ v) (columns df) |}.

(** [pd.concat([a, b], axis=1)] of two frames over the same index. *)
Definition concat_columns (a b : DataFrame) : DataFrame :=
  {| nrows := nrows a; columns := columns a ++ columns b |}.

(** The column [name] of [df] as [pd.concat(..., ignore_index=True)] lays
    it out: the values where the frame has the column, nan elsewhere. *)
Definition column_or_nan (name : string) (df : DataFrame) : list cell :=
  match list_find (λ c, c.1 = name) (columns df) with
  | Some (_, (_, col)) => col
  | None => replicate (nrows df) None
  end.

(** Keys in the order of their first occurrence. *)
Fixpoint first_occurrences (l : list string) : list string :=
  match l with
  | [] => []
  | x :: l' => x :: filter (λ y, y ≠ x) (first_occurrences l')
  end.

(** [pd.concat(frames, ignore_index=True)] of frames in each of which
    the column names are distinct: rows stacked, the columns the union of
    the frames' columns; nothing to stack is an error. *)
Definition concat_rows (frames : list DataFrame) : result DataFrame :=
  match frames with
  | [] => Raise ValueError
  | _ =>
    let names := first_occurrences (frames ≫= column_names) in
    Ok {| nrows := sum_list (nrows <$> frames);
          columns := map (λ c, (c, frames ≫= column_or_nan c)) names |}
  end.

(** ** Python control flow and dictionaries *)

(** [for x in l: body], the loop variables threaded as a state. *)
Fixpoint for_each {A S} (body : A → S → result S) (l : list A) (s : S)
  : result S :=
  match l with
  | [] => Ok s
  | x :: l' => s' ← body x s; for_each body l' s'
  end.

(** [d[k] = v] on an insertion-ordered dictionary. *)
Fixpoint dict_set {V} (k : string) (v : V) (d : list (string * V))
  : list (string * V) :=
  match d with
  | [] => [(k, v)]
  | (k', v') :: d' =>
      if decide (k = k') then (k, v) :: d' else (k', v') :: dict_set k v d'
  end.

(** [enumerate(l)] *)
Definition enumerate {A} (l : list A) : list (nat * A) :=
  zip (seq 0 (length l)) l.

(** ** Agent wrapper *)

(** The environment factory [env_fn] and the objects it builds, through
    what the wrapper calls: the class attribute [voi], the constructor,
    the attribute [voi] of an instance and the two per-trial functions,
    which may change the environment, the subject and the random source. *)
Record env_class (env subj rng : Type) := {
  env_fn_voi : list string;
  env_new : cell → result env;
  env_voi : env → list string;
  eval_fn : row → subj → env → result (env * subj * R);
  sim_fn : row → subj → rng → env → result (env * subj * rng * list cell)
}.
Arguments env_fn_voi {env subj rng} _.
Arguments env_new {env subj rng} _ _.
Arguments env_voi {env subj rng} _ _.
Arguments eval_fn {env subj rng} _ _ _ _.
Arguments sim_fn {env subj rng} _ _ _ _ _.

(** An agent class, through what the wrapper calls: the class attribute
    [voi], the constructor and the getters [get_<name>]. *)
Record agent_class (env subj : Type) := {
  agent_voi : list string;
  agent_new : env → list R → result subj;
  agent_get : string → subj → result value
}.
Arguments agent_voi {env subj} _.
Arguments agent_new {env subj} _ _ _.
Arguments agent_get {env subj} _ _ _.

Module wrapper.
Section wrapper.

Context {env subj rng : Type}.
Variable agent : agent_class env subj.
Variable env_fn : env_class env subj rng.

(** The attributes that change after [__init__]; [insights] exists
    once hooks are registered. *)
Record t := Build {
  use_hook : bool;
  insights : option (list (string * list value))
}.

Definition init : t := {| use_hook := false; insights := None |}.

Definition dataset := list (string * DataFrame).

(* ------------ fit ------------ *)

Definition loglike (params : list R) (block_data : DataFrame) : result R :=
  block_type ← loc block_data 0 "block_type";
  e ← env_new env_fn block_type;
  s ← agent_new agent e params;
  '(_, _, ll) ← for_each (λ '(_, r) '(e, s, ll),
                   '(e', s', l) ← eval_fn env_fn r s e;
                   mret (e', s', ll + l))
                 (iterrows block_data) (e, s, 0);
  mret ll.

Definition logprior (params : list R) (p_priors : list prior) : xfloat :=
  foldl (λ lpr '(pri, param),
           fadd lpr (np_max2 (float_of_logdens (logpdf pri param))
                             (fin (- max_))))
        (fin 0) (zip p_priors params).

Definition loss_fn (params : list R) (sub_data : dataset)
    (p_priors : option (list prior)) : result xfloat :=
  lls ← mapM (λ kb, loglike params kb.2) sub_data;
  let tot_loglike_loss := fin (- np_sum lls) in
  let tot_logprior_loss :=
    match p_priors with
    | None => fin 0
    | Some p_priors => fneg (logprior params p_priors)
    end in
  mret (fadd tot_loglike_loss tot_logprior_loss).

(* ------------ evaluate ------------ *)

Definition eval_block (block_data : DataFrame) (params : list R)
  : result DataFrame :=
  block_type ← loc block_data 0 "block_type";
  e ← env_new env_fn block_type;
  s ← agent_new agent e params;
  let col := "ll"%string :: agent_voi agent in
  let pred_data := nan_frame (nrows block_data) col in
  '(_, _, pred_data) ← for_each (λ '(t, r) '(e, s, pred_data),
                   '(e', s', ll) ← eval_fn env_fn r s e;
                   mret (e', s', set_loc t "ll" (Some (VNum ll)) pred_data))
                 (iterrows block_data) (e, s, pred_data);
  let pred_data := dropna_columns pred_data in
  mret (concat_columns block_data pred_data).

Definition eval (data : dataset) (params : list R) : result DataFrame :=
  sim_data ← mapM (λ kb, eval_block kb.2 params) data;
  concat_rows sim_data.

(* ------------ simulate ------------ *)

(** One pass of the loop body of [sim_block]; the loop state is the
    environment, the subject, the random source, the insights and the
    table of predictions. *)
Definition sim_trial (use_hook : bool) (tr : nat * row)
    (st : env * subj * rng * option (list (string * list value)) * DataFrame)
  : result (env * subj * rng * option (list (string * list value)) * DataFrame) :=
  let '(t, r) := tr in
  let '(e, s, g, ins, pred_data) := st in
  '(e, s, g, subj_voi) ← sim_fn env_fn r s g e;
  pred_data ← for_each (λ v pred_data,
                 x ← agent_get agent v s;
                 mret (set_loc t v (Some x) pred_data))
               (agent_voi agent) pred_data;
  ins ← (if use_hook then
           d ← getattr "insights" ins;
           d ← mapM (λ kl, x ← agent_get agent kl.1 s;
                           mret (kl.1, kl.2 ++ [x])) d;
           mret (Some d)
         else mret ins);
  pred_data ← for_each (λ iv pred_data,
                 x ← index subj_voi iv.1;
                 mret (set_loc t iv.2 x pred_data))
               (enumerate (env_voi env_fn e)) pred_data;
  mret (e, s, g, ins, pred_data).

Definition sim_block (block_data : DataFrame) (params : list R) (g : rng)
    (self : t) : result (t * rng * DataFrame) :=
  block_type ← loc block_data 0 "block_type";
  e ← env_new env_fn block_type;
  s ← agent_new agent e params;
  let col := env_fn_voi env_fn ++ agent_voi agent in
  let pred_data := nan_frame (nrows block_data) col in
  '(_, _, g, ins, pred_data) ← for_each (sim_trial (use_hook self))
                 (iterrows block_data) (e, s, g, insights self, pred_data);
  let pred_data := dropna_columns pred_data in
  mret (Build (use_hook self) ins, g, concat_columns block_data pred_data).

Definition sim (data : dataset) (params : list R) (g : rng) (self : t)
  : result (t * rng * DataFrame) :=
  '(self, g, sim_data) ← for_each (λ kb '(self, g, sim_data),
                   let block_data := kb.2 in
                   let block_data :=
                     foldl (λ block_data v,
                              if decide (v ∈ column_names block_data)
                              then drop_column v block_data
                              else block_data)
                           block_data (env_fn_voi env_fn) in
                   '(self, g, out) ← sim_block block_data params g self;
                   mret (self, g, sim_data ++ [out]))
                 data (self, g, []);
  out ← concat_rows sim_data;
  mret (self, g, out).

Definition register_hooks (args : list string) (self : t) : t :=
  {| use_hook := true;
     insights := Some (foldl (λ d k, dict_set k [] d) [] args) |}.

End wrapper.
End wrapper.

(** ** The delta-rule agent as an agent class *)

Definition RL_class {env : Type} : agent_class env RL.t := {|
  agent_voi := RL.voi;
  agent_new := λ _ params, RL.new params;
  agent_get := RL.get
|}.

(** A subclass of [RL] that declares one variable of interest:
    [class RLvoi(RL): voi = ['pS1']]. *)
Definition RLvoi_class {env : Type} : agent_class env RL.t := {|
  agent_voi := ["pS1"%string];
  agent_new := λ _ params, RL.new params;
  agent_get := RL.get
|}.

(** ** A small environment

    An environment in the shape the wrapper expects, used to run the
    wrapper on concrete data.  Each trial reads the outcome indicator
    [s] of the row, asks the subject for its policy under the modulation
    [[1, 1]], pushes the trial to the subject's buffer and lets it learn.
    Scoring returns the log-probability of the second action; simulation
    emits that probability under the name [p]. *)
Module toy_env.

Definition t := string.

Definition new (block_type : cell) : result t :=
  match block_type with
  | Some (VStr b) => Ok b
  | _ => Raise TypeError
  end.

Definition row_get (r : row) (k : string) : result cell :=
  match list_find (λ c, c.1 = k) r with
  | Some (_, (_, v)) => Ok v
  | None => Raise (KeyError k)
  end.

Definition trial (r : row) (subj : RL.t) (e : t) : result (RL.t * R) :=
  c ← row_get r "s";
  s ← match c with
      | Some v => Ok v
      | None => Raise ValueError
      end;
  '(subj, pi) ← RL.policy [1; 1] subj;
  p ← index pi 1;
  subj ← RL.mem_push (<["s" := s]> (<["t_type" := VStr e]>
                      (<["f_type" := VStr "gain"]> ∅))) subj;
  subj ← RL.learn subj;
  mret (subj, p).

Definition cls : env_class t RL.t nat := {|
  env_fn_voi := ["p"%string];
  env_new := new;
  env_voi := λ _, ["p"%string];
  eval_fn := λ r subj e,
    '(subj, p) ← trial r subj e; mret (e, subj, ln (p + eps_));
  sim_fn := λ r subj g e,
    '(subj, p) ← trial r subj e; mret (e, subj, S g, [Some (VNum p)])
|}.

(** A block of [n] trials, all with outcome indicator 1. *)
Definition block (n : nat) : DataFrame := {|
  nrows := n;
  columns := [("block_type"%string, replicate n (Some (VStr "sta")));
              ("s"%string, replicate n (Some (VNum 1)))]
|}.

End toy_env.

(** ** Vocabulary of the statements *)

(** The belief state of a delta-rule agent is the pair [(1 - p1, p1)],
    whose entries add up to one. *)
Definition belief_pair (self : RL.t) : Prop :=
  ∃ p, RL.p1 self = Some p
       ∧ RL.p_S self = Some [1 - p; p]
       ∧ np_sum [1 - p; p] = 1.

(** A buffered trial the critic can learn from: the three keys it
    samples are present and the outcome indicator is a number. *)
Definition trial_record (m_dict : gmap string value) : Prop :=
  ∃ s t f, m_dict !! "s"%string = Some (VNum s)
           ∧ m_dict !! "t_type"%string = Some t
           ∧ m_dict !! "f_type"%string = Some f.

(** One trial as an environment drives it: push, then learn. *)
Definition push_and_learn (m_dict : gmap string value) (self : RL.t)
  : result RL.t :=
  self ← RL.mem_push m_dict self;
  RL.learn self.

(** One term of the log-prior: the log-density floored at [- max_]. *)
Definition floored_logpdf (pri : prior) (param : R) : xfloat :=
  np_max2 (float_of_logdens (logpdf pri param)) (fin (- max_)).

(** The sum of a list of floats. *)
Definition fsum (l : list xfloat) : xfloat := foldr fadd (fin 0) l.

(** The per-trial contributions of one block, in trial order: what the
    scoring calls of a block return when each of them succeeds. *)
Section scoring.

Context {env subj rng : Type}.
Variable agent : agent_class env subj.
Variable env_fn : env_class env subj rng.

Fixpoint trial_scores (rows : list (nat * row)) (e : env) (s : subj)
  : result (list R) :=
  match rows with
  | [] => Ok []
  | tr :: rows' =>
      '(e', s', l) ← eval_fn env_fn tr.2 s e;
      ls ← trial_scores rows' e' s';
      mret (l :: ls)
  end.

Definition block_scores (params : list R) (block_data : DataFrame)
  : result (list R) :=
  block_type ← loc block_data 0 "block_type";
  e ← env_new env_fn block_type;
  s ← agent_new agent e params;
  trial_scores (iterrows block_data) e s.

End scoring.

(** The column of a table that holds the given numbers, one per trial. *)
Definition number_column (ls : list R) : list cell :=
  (λ l, Some (VNum l)) <$> ls.

(** The table of predictions of [eval_block] while it is being filled:
    the columns named [ll] hold [filled] followed by [rest] missing
    cells, every other column is missing throughout. *)
Definition ll_frame (n : nat) (col : list string) (filled : list cell)
    (rest : nat) : DataFrame :=
  {| nrows := n;
     columns := map (λ c, (c, if decide (c = "ll"%string)
                              then filled ++ replicate rest None
                              else replicate n None)) col |}.

(** The number of trials of a dataset. *)
Definition ntrials (data : list (string * DataFrame)) : nat :=
  sum_list ((λ kb, nrows kb.2) <$> data).

(** The logs [d'] are the logs [d] with [n] entries appended to each:
    the same names in the same order, the earlier entries kept. *)
Definition logs_extended (n : nat) (d d' : list (string * list value)) : Prop :=
  Forall2 (λ kl kl', kl'.1 = kl.1
                     ∧ ∃ new, kl'.2 = kl.2 ++ new ∧ length new = n) d d'.

(** ** Parameter names *)

(** [flatten = lambda l: [item for sublist in l for item in sublist]] *)
Definition flatten {A} (l : list (list A)) : list A :=
  sublist ← l; item ← sublist; [item].

Definition default_block_types : list string := ["sta"; "vol"]%string.
Definition default_feedback_types : list string := ["gain"; "loss"]%string.

(** [f'{key}_{j}_{i}'] *)
Definition param_name (key j i : string) : string :=
  key +:+ "_" +:+ j +:+ "_" +:+ i.

Definition get_param_name (params block_types feedback_types : list string)
  : list string :=
  flatten (map (λ j, flatten (map (λ i, map (λ key, param_name key j i) params)
                                  feedback_types))
               block_types).

(** ** Further vocabulary *)

(** A frame without the columns named in [voi], the others in order. *)
Definition without_columns (voi : list string) (df : DataFrame) : DataFrame :=
  {| nrows := nrows df;
     columns := filter (λ c, c.1 ∉ voi) (columns df) |}.

(** A buffered trial whose outcome indicator is a probability. *)
Definition unit_trial_record (m_dict : gmap string value) : Prop :=
  ∃ s t f, m_dict !! "s"%string = Some (VNum s)
           ∧ m_dict !! "t_type"%string = Some t
           ∧ m_dict !! "f_type"%string = Some f
           ∧ 0 <= s <= 1.

(** * Properties *)

(** ** Results *)

Lemma not_raises_Ok {A} (a : A) : ¬ raises (Ok a).
Proof. intros [e He]. discriminate He. Qed.

Lemma raises_Raise {A} (e : exn) : raises (@Raise A e).
Proof. by exists e. Qed.

(** ** The clipped exponential *)

Lemma np_clip_bounds (x lo hi : R) :
  lo <= hi → lo <= np_clip x lo hi <= hi.
Proof.
  intros Hlh. unfold np_clip. split.
  - apply Rmin_glb; [done | apply Rmax_r].
  - apply Rmin_l.
Qed.

Lemma exp_le_mono (x y : R) : x <= y → exp x <= exp y.
Proof.
  intros [Hlt | ->]; [left; by apply exp_increasing | right; reflexivity].
Qed.

Lemma exp_INR_le (n : nat) : exp (INR n) <= 3 ^ n.
Proof.
  induction n as [|n IH].
  - simpl. rewrite exp_0. lra.
  - rewrite S_INR, exp_plus. change (3 ^ S n) with (3 * 3 ^ n).
    rewrite (Rmult_comm 3).
    apply Rmult_le_compat; try apply Rlt_le, exp_pos; [done | apply exp_le_3].
Qed.

Lemma exp_50_finite : exp 50 < 2 ^ 1024.
Proof.
  apply Rle_lt_trans with (3 ^ 50).
  - replace (exp 50) with (exp (INR 50))
      by (f_equal; rewrite INR_IZR_INZ; reflexivity).
    apply exp_INR_le.
  - change 3 with (IZR 3). change 2 with (IZR 2).
    rewrite !pow_IZR. apply IZR_lt. reflexivity.
Qed.

Lemma max_lt_50 : - max_ <= 50.
Proof.
  unfold max_. assert (0 <= 10 ^ 13) by (apply pow_le; lra). lra.
Qed.

(** C9. For every real [x], [clip_exp x] is the exponential of [x]
    clipped to the interval from -1e13 to 50, so it is positive, at most
    [exp 50] and below the overflow threshold [2^1024] of a double; the
    sigmoid is [1 / (1 + clip_exp (- x))], the same clipped exponential at
    the negated input. *)
Theorem clip_exp_sigmoid_spec (x : R) :
  clip_exp x = exp (Rmin 50 (Rmax x (- 10 ^ 13)))
  ∧ - 10 ^ 13 <= Rmin 50 (Rmax x (- 10 ^ 13)) <= 50
  ∧ 0 < clip_exp x <= exp 50
  ∧ exp 50 < 2 ^ 1024
  ∧ sigmoid x = 1 / (1 + clip_exp (- x)).
Proof.
  pose proof (np_clip_bounds x _ _ max_lt_50) as Hb.
  unfold np_clip, max_ in Hb.
  repeat split; try apply Hb.
  - apply exp_pos.
  - unfold clip_exp. apply exp_le_mono, np_clip_bounds, max_lt_50.
  - apply exp_50_finite.
Qed.

(** ** The memory buffer *)

Lemma push_m (m_dict : gmap string value) (self : simpleBuffer.t) :
  simpleBuffer.m (simpleBuffer.push m_dict self) = m_dict.
Proof.
  unfold simpleBuffer.push. simpl. apply map_eq. intros k.
  rewrite map_lookup_imap. by destruct (m_dict !! k).
Qed.

Lemma sample_one (k : string) (self : simpleBuffer.t) :
  simpleBuffer.sample [k] self =
  match simpleBuffer.m self !! k with
  | Some v => Ok (simpleBuffer.One v)
  | None => Raise (KeyError k)
  end.
Proof.
  unfold simpleBuffer.sample, simpleBuffer.getitem. simpl.
  by destruct (simpleBuffer.m self !! k).
Qed.

(** C5. After [push({'a':1,'b':2})], [sample('a','b')] is the list
    [[1, 2]]; after a further [push({'a':3})], [sample('b')] raises
    [KeyError('b')].  In general [push] makes the pushed mapping the
    whole contents, whatever the buffer held, so a key absent from the
    latest push cannot be sampled. *)
Theorem buffer_push_replaces :
  let b1 := simpleBuffer.push (<["a" := VNum 1]> (<["b" := VNum 2]> ∅))
                              simpleBuffer.init in
  let b2 := simpleBuffer.push (<["a" := VNum 3]> ∅) b1 in
  simpleBuffer.sample ["a"; "b"]%string b1
    = Ok (simpleBuffer.Many [VNum 1; VNum 2])
  ∧ simpleBuffer.sample ["b"%string] b2 = Raise (KeyError "b")
  ∧ simpleBuffer.sample ["a"%string] b2 = Ok (simpleBuffer.One (VNum 3))
  ∧ (∀ m_dict self, simpleBuffer.m (simpleBuffer.push m_dict self) = m_dict)
  ∧ (∀ m_dict self k,
       simpleBuffer.sample [k] (simpleBuffer.push m_dict self) =
       match m_dict !! k with
       | Some v => Ok (simpleBuffer.One v)
       | None => Raise (KeyError k)
       end).
Proof.
  repeat split.
  - apply push_m.
  - intros m_dict self k. by rewrite sample_one, push_m.
Qed.

(** ** The base agent *)

(** C1. On the base agent [learn()], [policy(m)] and [load_params(params)]
    each return the exception class [NotImplementedError] as an ordinary
    value; none of them raises, and constructing a base agent succeeds. *)
Theorem baseAgent_stubs_return_class
    (self : baseAgent.t) (m params : list R) :
  baseAgent.learn self = Ok (PyExceptionClass NotImplementedError)
  ∧ baseAgent.policy m self = Ok (PyExceptionClass NotImplementedError)
  ∧ baseAgent.load_params params self
      = Ok (PyExceptionClass NotImplementedError)
  ∧ ¬ raises (baseAgent.learn self)
  ∧ ¬ raises (baseAgent.policy m self)
  ∧ ¬ raises (baseAgent.load_params params self)
  ∧ ¬ raises (baseAgent.new params).
Proof. repeat split; apply not_raises_Ok. Qed.

(** ** Loading parameters *)

Lemma load_params_pair (x y : R) (self : RL.t) :
  RL.load_params [x; y] self =
  Ok (RL.Build (Some (sigmoid x)) (Some (clip_exp y)) (RL.p1 self)
               (RL.p_S self) (RL.o self) (RL.pi self) (RL.mem self)).
Proof. reflexivity. Qed.

Lemma load_params_prefix (x y : R) (rest : list R) (self : RL.t) :
  RL.load_params (x :: y :: rest) self = RL.load_params [x; y] self.
Proof. reflexivity. Qed.

(** C3, as the code has it.  A parameter vector shorter than two raises
    [IndexError] where the first missing position is read, and nothing is
    padded; of a longer vector the entries after the second are ignored:
    loading succeeds with the result of loading the first two. *)
Theorem load_params_length (self : RL.t) :
  RL.load_params [] self = Raise IndexError
  ∧ (∀ x, RL.load_params [x] self = Raise IndexError)
  ∧ (∀ x y rest,
       RL.load_params (x :: y :: rest) self = RL.load_params [x; y] self)
  ∧ (∀ x y rest, ∃ self',
       RL.load_params (x :: y :: rest) self = Ok self'
       ∧ RL.alpha self' = Some (sigmoid x)
       ∧ RL.beta self' = Some (clip_exp y)).
Proof.
  repeat split.
  intros x y rest. eexists. split; [reflexivity | done].
Qed.

(** C3 as stated fails: a vector of three entries differs in length from
    [p_trans], and [load_params] accepts it, ignoring the third entry. *)
Lemma load_params_too_long_accepted :
  length [0; 0; 7] ≠ length RL.p_trans
  ∧ ¬ raises (RL.load_params [0; 0; 7] RL.object)
  ∧ RL.load_params [0; 0; 7] RL.object = RL.load_params [0; 0] RL.object.
Proof.
  split; [simpl; lia |]. split; [apply not_raises_Ok | reflexivity].
Qed.

(** ** The delta-rule agent *)

Lemma np_clip_inside (x lo hi : R) : lo <= x <= hi → np_clip x lo hi = x.
Proof.
  intros [Hlo Hhi]. unfold np_clip.
  rewrite Rmax_left by exact Hlo. by apply Rmin_right.
Qed.

Lemma clip_exp_0 : clip_exp 0 = 1.
Proof.
  unfold clip_exp. rewrite np_clip_inside; [apply exp_0 |].
  unfold max_. assert (0 < 10 ^ 13) by (apply pow_lt; lra). lra.
Qed.

Lemma sigmoid_0 : sigmoid 0 = 1 / 2.
Proof. unfold sigmoid. rewrite Ropp_0, clip_exp_0. lra. Qed.

(** Raw parameters [[0, 0]] are the native parameters alpha = 0.5 and
    beta = 1, and a new agent starts from the belief pair (0.5, 0.5). *)
Lemma RL_new_0_0 :
  RL.new [0; 0] =
  Ok (RL.Build (Some (1 / 2)) (Some 1) (Some (1 / 2))
               (Some [1 - 1 / 2; 1 / 2]) None None (Some simpleBuffer.init)).
Proof.
  unfold RL.new. rewrite load_params_pair, sigmoid_0, clip_exp_0.
  reflexivity.
Qed.

Lemma sample_trial (b : simpleBuffer.t) (s t f : value) :
  simpleBuffer.m b !! "s"%string = Some s →
  simpleBuffer.m b !! "t_type"%string = Some t →
  simpleBuffer.m b !! "f_type"%string = Some f →
  simpleBuffer.sample ["s"; "t_type"; "f_type"]%string b
    = Ok (simpleBuffer.Many [s; t; f]).
Proof.
  intros Hs Ht Hf. unfold simpleBuffer.sample, simpleBuffer.getitem.
  simpl. rewrite Hs. simpl. rewrite Ht. simpl. rewrite Hf. reflexivity.
Qed.

(** What [learn] does when it goes through. *)
Lemma learn_ok (self : RL.t) (b : simpleBuffer.t) (s p a : R) (t f : value) :
  RL.mem self = Some b →
  simpleBuffer.m b !! "s"%string = Some (VNum s) →
  simpleBuffer.m b !! "t_type"%string = Some t →
  simpleBuffer.m b !! "f_type"%string = Some f →
  RL.p1 self = Some p →
  RL.alpha self = Some a →
  let p' := p + a * (s - p) in
  RL.learn self =
  Ok (RL.Build (RL.alpha self) (RL.beta self) (Some p') (Some [1 - p'; p'])
        (Some (if Rlt_dec 0 (s - p) then "pos" else "neg")%string)
        (RL.pi self) (RL.mem self)).
Proof.
  intros Hm Hs Ht Hf Hp Ha. unfold RL.learn, RL._learn_critic.
  rewrite Hm. simpl. rewrite (sample_trial _ _ _ _ Hs Ht Hf). simpl.
  rewrite Hp. simpl. rewrite Ha. reflexivity.
Qed.

(** Whenever [learn] returns, the belief pair is [(1 - p1, p1)]. *)
Lemma learn_belief_pair (self self' : RL.t) :
  RL.learn self = Ok self' → belief_pair self'.
Proof.
  unfold RL.learn, RL._learn_critic. intros H.
  destruct (RL.mem self) as [b|]; simpl in H; [|done].
  destruct (simpleBuffer.sample _ b) as [r|]; simpl in H; [|done].
  destruct r as [|[|s [|t [|f [|? ?]]]]]; simpl in H; try done.
  destruct (RL.p1 self) as [p|]; simpl in H; [|done].
  destruct s as [s|]; simpl in H; [|done].
  destruct (RL.alpha self) as [a|]; simpl in H; [|done].
  injection H as <-. exists (p + a * (s - p)). simpl.
  repeat split. lra.
Qed.

Lemma softmax_sum_1 (x pi : list R) :
  softmax x = Ok pi → length pi = length x ∧ np_sum pi = 1.
Proof.
  unfold softmax. destruct x as [|x0 x]; simpl; [done|].
  intros [= <-]. set (xm := foldl Rmax x0 x).
  set (e := exp (x0 - xm) :: map (λ v, exp (v - xm)) x).
  split; [simpl; by rewrite !length_map |].
  assert (Hpos : ∀ l, Forall (λ v, 0 < v) l → 0 <= np_sum l).
  { induction 1; simpl; [lra | lra]. }
  assert (He : Forall (λ v, 0 < v) e).
  { subst e. constructor; [apply exp_pos |].
    apply Forall_forall. intros v [w [-> _]]%list_elem_of_fmap. apply exp_pos. }
  assert (Hs : 0 < np_sum e).
  { subst e. simpl. inversion He; subst.
    pose proof (Hpos _ H2). lra. }
  assert (Hdiv : ∀ l c, c ≠ 0 → np_sum (map (λ v, v / c) l) = np_sum l / c).
  { intros l c Hc. induction l as [|v l IH]; simpl; [lra |].
    rewrite IH. field. exact Hc. }
  change (np_sum (map (λ v, v / np_sum e) e) = 1).
  rewrite Hdiv by lra. field. lra.
Qed.

Lemma policy_ok (self : RL.t) (m pS x pi : list R) (b : R) :
  RL.beta self = Some b →
  RL.p_S self = Some pS →
  np_mul (map (λ v, b * v) pS) m = Ok x →
  softmax x = Ok pi →
  RL.policy m self =
  Ok (RL.Build (RL.alpha self) (RL.beta self) (RL.p1 self) (RL.p_S self)
               (RL.o self) (Some pi) (RL.mem self), pi).
Proof.
  intros Hb HpS Hx Hpi. unfold RL.policy.
  rewrite Hb, HpS. simpl. rewrite Hx. simpl. rewrite Hpi. reflexivity.
Qed.

(** C7. A delta-rule agent with native parameters alpha = 0.5 and
    beta = 1 and belief pair (0.5, 0.5), whose buffer holds the outcome
    indicator s = 1 and the keys ['t_type'] and ['f_type'], has the belief
    pair (0.25, 0.75) after one [learn()]; [policy([1, 1])] then returns
    a distribution of two entries that add up to 1 within 1e-9. *)
Theorem RL_learn_then_policy
    (self : RL.t) (b : simpleBuffer.t) (t f : value) :
  RL.alpha self = Some (1 / 2) →
  RL.beta self = Some 1 →
  RL.p1 self = Some (1 / 2) →
  RL.p_S self = Some [1 / 2; 1 / 2] →
  RL.mem self = Some b →
  simpleBuffer.m b !! "s"%string = Some (VNum 1) →
  simpleBuffer.m b !! "t_type"%string = Some t →
  simpleBuffer.m b !! "f_type"%string = Some f →
  ∃ self' self'' pi,
    RL.learn self = Ok self'
    ∧ RL.p_S self' = Some [1 / 4; 3 / 4]
    ∧ RL.policy [1; 1] self' = Ok (self'', pi)
    ∧ RL.pi self'' = Some pi
    ∧ length pi = 2%nat
    ∧ Rabs (np_sum pi - 1) <= / 10 ^ 9.
Proof.
  intros Ha Hb Hp _ Hm Hs Ht Hf.
  pose proof (learn_ok self b 1 (1 / 2) (1 / 2) t f Hm Hs Ht Hf Hp Ha) as Hl.
  simpl in Hl.
  set (p' := 1 / 2 + 1 / 2 * (1 - 1 / 2)) in Hl.
  set (self' := RL.Build _ _ _ _ _ _ _) in Hl.
  destruct (softmax [1 * (1 - p') * 1; 1 * p' * 1]) as [pi|e] eqn:Hsm;
    [|discriminate Hsm].
  pose proof (policy_ok self' [1; 1] [1 - p'; p'] _ pi 1 Hb eq_refl eq_refl Hsm)
    as Hpol.
  apply softmax_sum_1 in Hsm as [Hlen Hsum].
  eexists self', _, pi. split; [exact Hl |]. split.
  { subst self' p'. simpl. do 2 f_equal; [lra | f_equal; lra]. }
  split; [exact Hpol |]. split; [reflexivity |]. split; [exact Hlen |].
  rewrite Hsum. replace (1 - 1) with 0 by lra. rewrite Rabs_R0.
  apply Rlt_le, Rinv_0_lt_compat, pow_lt. lra.
Qed.

Lemma RL_learn_then_policy_witness :
  ∃ self0 self1,
    RL.new [0; 0] = Ok self0
    ∧ RL.mem_push (<["s" := VNum 1]> (<["t_type" := VStr "sta"]>
                   (<["f_type" := VStr "gain"]> ∅))) self0 = Ok self1
    ∧ ∃ self' self'' pi,
        RL.learn self1 = Ok self'
        ∧ RL.p_S self' = Some [1 / 4; 3 / 4]
        ∧ RL.policy [1; 1] self' = Ok (self'', pi)
        ∧ RL.pi self'' = Some pi
        ∧ length pi = 2%nat
        ∧ Rabs (np_sum pi - 1) <= / 10 ^ 9.
Proof.
  eexists _, _. split; [apply RL_new_0_0 |]. split; [reflexivity |].
  eapply (RL_learn_then_policy _ _ (VStr "sta") (VStr "gain"));
    try reflexivity.
  simpl. do 2 f_equal. lra.
Defined.

(** A state from which [learn] can run once a trial is in the buffer. *)
Lemma push_and_learn_ok (self : RL.t) (m_dict : gmap string value) :
  is_Some (RL.alpha self) → is_Some (RL.p1 self) → is_Some (RL.mem self) →
  trial_record m_dict →
  ∃ self', push_and_learn m_dict self = Ok self'
           ∧ is_Some (RL.alpha self') ∧ is_Some (RL.p1 self')
           ∧ is_Some (RL.mem self') ∧ belief_pair self'.
Proof.
  intros [a Ha] [p Hp] [b Hb] (s & t & f & Hs & Ht & Hf).
  unfold push_and_learn, RL.mem_push. rewrite Hb. simpl.
  set (self1 := RL.Build _ _ _ _ _ _ _).
  pose proof (learn_ok self1 (simpleBuffer.push m_dict b) s p a t f) as Hl.
  rewrite push_m in Hl. specialize (Hl eq_refl Hs Ht Hf Hp Ha).
  eexists. split; [exact Hl |]. simpl. rewrite Ha.
  repeat split; try by eexists.
  exists (p + a * (s - p)). repeat split. simpl. lra.
Qed.

Lemma for_each_push_and_learn (ms : list (gmap string value)) :
  Forall trial_record ms →
  ∀ self k,
    is_Some (RL.alpha self) → is_Some (RL.p1 self) → is_Some (RL.mem self) →
    belief_pair self →
    ∃ self', for_each push_and_learn (take k ms) self = Ok self'
             ∧ belief_pair self'.
Proof.
  induction 1 as [|m_dict ms Hm _ IH]; intros self k Ha Hp Hb Hinv.
  - rewrite take_nil. by exists self.
  - destruct k as [|k]; [by exists self |].
    destruct (push_and_learn_ok self m_dict Ha Hp Hb Hm)
      as (self1 & Hl & Ha1 & Hp1 & Hb1 & Hinv1).
    destruct (IH self1 k Ha1 Hp1 Hb1 Hinv1) as (self' & Hrun & Hinv').
    exists self'. split; [|done]. simpl. rewrite Hl. exact Hrun.
Qed.

(** C8. A delta-rule agent built from at least two parameters has the
    belief state [p_S = (1 - p1, p1)], whose entries add up to exactly
    one, after belief initialisation and after every [learn()] of any
    sequence of buffered trials: the construction and every [learn()]
    go through, and the state after each prefix of the trials has it. *)
Theorem belief_pair_invariant
    (params : list R) (ms : list (gmap string value)) :
  (2 ≤ length params)%nat →
  Forall trial_record ms →
  ∃ self0,
    RL.new params = Ok self0
    ∧ belief_pair self0
    ∧ ∀ k, ∃ self, for_each push_and_learn (take k ms) self0 = Ok self
                   ∧ belief_pair self.
Proof.
  intros Hlen Hms.
  destruct params as [|x [|y rest]]; simpl in Hlen; try lia.
  eexists. split.
  { unfold RL.new. rewrite load_params_prefix, load_params_pair. reflexivity. }
  assert (Hinv : belief_pair
            (RL._init_buffer (RL._init_believes
               (RL.Build (Some (sigmoid x)) (Some (clip_exp y)) None None
                         None None None)))).
  { exists (1 / 2). repeat split. simpl. lra. }
  split; [exact Hinv |].
  intros k. apply for_each_push_and_learn; try done; by eexists.
Qed.

Lemma belief_pair_invariant_witness :
  ∃ self0,
    RL.new [0; 0] = Ok self0
    ∧ belief_pair self0
    ∧ ∀ k, ∃ self,
        for_each push_and_learn
          (take k [<["s" := VNum 1]> (<["t_type" := VStr "sta"]>
                     (<["f_type" := VStr "gain"]> ∅));
                   <["s" := VNum 0]> (<["t_type" := VStr "sta"]>
                     (<["f_type" := VStr "loss"]> ∅))]) self0 = Ok self
        ∧ belief_pair self.
Proof.
  apply belief_pair_invariant; [simpl; lia |].
  repeat constructor; eexists _, _, _; repeat split; reflexivity.
Defined.

(** ** The log-prior *)

Lemma fadd_assoc (a b c : xfloat) : fadd (fadd a b) c = fadd a (fadd b c).
Proof.
  destruct a, b, c; simpl; try reflexivity. by rewrite Rplus_assoc.
Qed.

Lemma fadd_0_r (a : xfloat) : fadd a (fin 0) = a.
Proof. destruct a; simpl; try reflexivity. by rewrite Rplus_0_r. Qed.

Lemma fadd_0_l (a : xfloat) : fadd (fin 0) a = a.
Proof. destruct a; simpl; try reflexivity. by rewrite Rplus_0_l. Qed.

Lemma logprior_foldl (l : list (prior * R)) (acc : xfloat) :
  foldl (λ lpr '(pri, param),
           fadd lpr (np_max2 (float_of_logdens (logpdf pri param))
                             (fin (- max_))))
        acc l
  = fadd acc (fsum (map (λ pp, floored_logpdf pp.1 pp.2) l)).
Proof.
  revert acc. induction l as [|[pri param] l IH]; intros acc; simpl.
  - by rewrite fadd_0_r.
  - rewrite IH, fadd_assoc. reflexivity.
Qed.

Lemma floored_logpdf_ge (pri : prior) (param : R) :
  fle (fin (- max_)) (floored_logpdf pri param).
Proof.
  unfold floored_logpdf. destruct (logpdf pri param); simpl.
  - lra.
  - apply Rmax_r.
  - exact I.
Qed.

Lemma fsum_ge (c : R) (l : list xfloat) :
  Forall (fle (fin c)) l → fle (fin (c * INR (length l))) (fsum l).
Proof.
  induction 1 as [|x l Hx _ IH].
  - simpl. lra.
  - change (fsum (x :: l)) with (fadd x (fsum l)).
    rewrite length_cons, S_INR.
    destruct x, (fsum l); simpl in *; try done. lra.
Qed.

Lemma fle_fin_trans (a b : R) (v : xfloat) :
  a <= b → fle (fin b) v → fle (fin a) v.
Proof. intros Hab. destruct v; simpl; try done. lra. Qed.

(** C6. The log-prior is the sum over the positions of the larger of
    the prior's log-density at the parameter and -1e13: a term is -1e13
    where the prior assigns zero density, the larger of the log-density
    and -1e13 where the log-density is finite, and +inf where it is; the
    sum of finite terms is their sum as numbers.  Every term is at least
    -1e13, so the result is never nan and is at least -1e13 times the
    number of parameters.  [logprior] is a total function: it raises for
    no input. *)
Theorem logprior_floored (params : list R) (p_priors : list prior) :
  let term := λ (pri : prior) (param : R),
    match logpdf pri param with
    | LNegInf => fin (- 10 ^ 13)
    | LFin r => fin (Rmax r (- 10 ^ 13))
    | LPosInf => pinf
    end in
  let terms := zip_with term p_priors params in
  wrapper.logprior params p_priors = fsum terms
  ∧ (∀ rs : list R, fsum (fin <$> rs) = fin (np_sum rs))
  ∧ Forall (fle (fin (- 10 ^ 13))) terms
  ∧ np_max2 (float_of_logdens LNegInf) (fin (- max_)) = fin (- 10 ^ 13)
  ∧ wrapper.logprior params p_priors ≠ nan
  ∧ fle (fin (- 10 ^ 13 * INR (length params)))
        (wrapper.logprior params p_priors).
Proof.
  intros term terms.
  assert (Hterm : ∀ pri x, floored_logpdf pri x = term pri x).
  { intros pri x. unfold floored_logpdf, term, max_.
    by destruct (logpdf pri x). }
  assert (Hterms : map (λ pp, floored_logpdf pp.1 pp.2) (zip p_priors params)
                   = terms).
  { subst terms. unfold zip. generalize params.
    induction p_priors as [|pri ps IH]; intros [|x xs]; simpl; try done.
    by rewrite IH, Hterm. }
  assert (Heq : wrapper.logprior params p_priors = fsum terms).
  { unfold wrapper.logprior. rewrite logprior_foldl, Hterms. apply fadd_0_l. }
  assert (Hall : Forall (fle (fin (- 10 ^ 13))) terms).
  { rewrite <- Hterms. apply Forall_fmap, Forall_forall.
    intros [pri x] _. apply floored_logpdf_ge. }
  assert (Hlow : fle (fin (- 10 ^ 13 * INR (length params)))
                     (wrapper.logprior params p_priors)).
  { rewrite Heq. eapply fle_fin_trans; [| apply fsum_ge, Hall].
    assert (Hlen : (length terms ≤ length params)%nat).
    { subst terms. rewrite length_zip_with. lia. }
    apply le_INR in Hlen.
    assert (0 <= 10 ^ 13) by (apply pow_le; lra). nra. }
  split; [exact Heq |]. split.
  { intros rs. induction rs as [|r rs IH]; [done |].
    change (fadd (fin r) (fsum (fin <$> rs)) = fin (r + np_sum rs)).
    by rewrite IH. }
  split; [exact Hall |]. split; [done |]. split; [|exact Hlow].
  intros Hnan. rewrite Hnan in Hlow. exact Hlow.
Qed.

(** ** Scoring a dataset *)

Section scoring_facts.

Context {env subj rng : Type}.
Variable agent : agent_class env subj.
Variable env_fn : env_class env subj rng.

(** The loop of [loglike] adds the contributions to its accumulator. *)
Lemma loglike_loop (rows : list (nat * row)) (e : env) (s : subj) (acc : R) :
  (λ st, st.2) <$>
    for_each (λ '(_, r) '(e, s, ll),
                '(e', s', l) ← eval_fn env_fn r s e;
                mret (e', s', ll + l))
             rows (e, s, acc)
  = (λ ls, acc + np_sum ls) <$> trial_scores env_fn rows e s.
Proof.
  revert e s acc. induction rows as [|[t r] rows IH]; intros e s acc.
  - simpl. by rewrite Rplus_0_r.
  - simpl. destruct (eval_fn env_fn r s e) as [[[e' s'] l]|]; simpl; [|done].
    rewrite IH. destruct (trial_scores env_fn rows e' s'); simpl; [|done].
    by rewrite Rplus_assoc.
Qed.

Lemma loglike_block_scores (params : list R) (block_data : DataFrame) :
  wrapper.loglike agent env_fn params block_data
  = np_sum <$> block_scores agent env_fn params block_data.
Proof.
  unfold wrapper.loglike, block_scores.
  destruct (loc block_data 0 "block_type") as [bt|]; simpl; [|done].
  destruct (env_new env_fn bt) as [e|]; simpl; [|done].
  destruct (agent_new agent e params) as [s|]; simpl; [|done].
  pose proof (loglike_loop (iterrows block_data) e s 0) as Hloop.
  destruct (for_each _ _ _) as [[[e' s'] ll]|]; simpl in *;
    destruct (trial_scores _ _ _ _); simpl in *; try done.
  injection Hloop as ->. by rewrite Rplus_0_l.
Qed.

(** C4, as the code has it.  When the scoring of every block of a
    dataset goes through (the block type is read from the row labelled 0,
    the environment and the agent are built, and each per-trial scoring
    call returns a real number, its contribution), [loglike] returns for
    each block a real number, the sum of the block's contributions, and
    [loss_fn] without a prior returns the negation of the sum of these
    over the blocks. *)
Theorem loglike_loss_fn
    (params : list R) (data : wrapper.dataset) (lss : list (list R)) :
  Forall2 (λ kb ls, block_scores agent env_fn params kb.2 = Ok ls) data lss →
  Forall2 (λ kb ls, wrapper.loglike agent env_fn params kb.2 = Ok (np_sum ls))
          data lss
  ∧ wrapper.loss_fn agent env_fn params data None
    = Ok (fin (- np_sum (np_sum <$> lss))).
Proof.
  intros Hall.
  assert (Hll : Forall2 (λ kb ls, wrapper.loglike agent env_fn params kb.2
                                  = Ok (np_sum ls)) data lss).
  { eapply Forall2_impl; [exact Hall |]. intros kb ls Hs. simpl in *.
    by rewrite loglike_block_scores, Hs. }
  split; [exact Hll |].
  unfold wrapper.loss_fn.
  assert (Hmap : mapM (λ kb, wrapper.loglike agent env_fn params kb.2) data
                 = Ok (np_sum <$> lss)).
  { clear Hall. induction Hll as [|kb ls data lss Hkb _ IH]; [done |].
    simpl. rewrite Hkb. simpl. rewrite IH. reflexivity. }
  rewrite Hmap. simpl. by rewrite Rplus_0_r.
Qed.

End scoring_facts.

Lemma loglike_loss_fn_witness :
  ∃ lss,
    Forall2 (λ kb ls, block_scores RL_class toy_env.cls [0; 0] kb.2 = Ok ls)
            [("b1"%string, toy_env.block 2); ("b2"%string, toy_env.block 1)]
            lss
    ∧ Forall2 (λ kb ls, wrapper.loglike RL_class toy_env.cls [0; 0] kb.2
                        = Ok (np_sum ls))
              [("b1"%string, toy_env.block 2); ("b2"%string, toy_env.block 1)]
              lss
    ∧ wrapper.loss_fn RL_class toy_env.cls [0; 0]
        [("b1"%string, toy_env.block 2); ("b2"%string, toy_env.block 1)] None
      = Ok (fin (- np_sum (np_sum <$> lss))).
Proof.
  eexists.
  refine (let H := _ in conj H (loglike_loss_fn RL_class toy_env.cls _ _ _ H)).
  repeat constructor.
Defined.

(** C4 as stated fails: that every per-trial scoring call succeeds does
    not make [loglike] return.  On a block without trials no scoring call
    is made, so none fails, and [loglike] and [loss_fn] raise [KeyError]
    where the block type is read; with a parameter vector of one entry
    the agent is not built, so again no scoring call is made, and
    [loglike] raises [IndexError]. *)
Lemma loglike_raises_without_failed_scoring :
  let empty := {| nrows := 0; columns := [("block_type"%string, [])] |} in
  iterrows empty = []
  ∧ (∀ e s, trial_scores toy_env.cls (iterrows empty) e s = Ok [])
  ∧ wrapper.loglike RL_class toy_env.cls [0; 0] empty = Raise (KeyError "0")
  ∧ wrapper.loss_fn RL_class toy_env.cls [0; 0] [("b1"%string, empty)] None
    = Raise (KeyError "0")
  ∧ RL.new [0] = Raise IndexError
  ∧ wrapper.loglike RL_class toy_env.cls [0] (toy_env.block 1)
    = Raise IndexError
  ∧ wrapper.loss_fn RL_class toy_env.cls [0]
      [("b1"%string, toy_env.block 1)] None
    = Raise IndexError.
Proof. repeat split. Qed.

(** ** Evaluating a block *)

Lemma length_iterrows (df : DataFrame) : length (iterrows df) = nrows df.
Proof. unfold iterrows. by rewrite length_map, length_seq. Qed.

Lemma iterrows_labels (df : DataFrame) : (iterrows df).*1 = seq 0 (nrows df).
Proof.
  unfold iterrows.
  induction (seq 0 (nrows df)) as [|t l IH]; [done |].
  simpl. by f_equal.
Qed.

Lemma loc_nonempty (df : DataFrame) (name : string) (c : cell) :
  loc df 0 name = Ok c → (0 < nrows df)%nat.
Proof.
  unfold loc. destruct (list_find _ _) as [[? [? ?]]|]; [|done].
  by destruct (decide (0 < nrows df)%nat).
Qed.

Section eval_facts.

Context {env subj rng : Type}.
Variable agent : agent_class env subj.
Variable env_fn : env_class env subj rng.

Lemma trial_scores_length (rows : list (nat * row)) (e : env) (s : subj)
    (ls : list R) :
  trial_scores env_fn rows e s = Ok ls → length ls = length rows.
Proof.
  revert e s ls. induction rows as [|tr rows IH]; intros e s ls; simpl.
  - by intros [= <-].
  - destruct (eval_fn env_fn tr.2 s e) as [[[e' s'] l]|]; simpl; [|done].
    destruct (trial_scores env_fn rows e' s') as [ls'|] eqn:Hls;
      simpl; [|done].
    intros [= <-]. simpl. f_equal. by eapply IH.
Qed.

(** The loop of [eval_block] writes each contribution at its label. *)
Lemma eval_block_loop (rows : list (nat * row)) (e : env) (s : subj)
    (pred_data : DataFrame) :
  (λ st, st.2) <$>
    for_each (λ '(t, r) '(e, s, pred_data),
                '(e', s', ll) ← eval_fn env_fn r s e;
                mret (e', s', set_loc t "ll" (Some (VNum ll)) pred_data))
             rows (e, s, pred_data)
  = (λ ls, foldl (λ pred_data tl,
                    set_loc tl.1 "ll" (Some (VNum tl.2)) pred_data)
                 pred_data (zip rows.*1 ls))
    <$> trial_scores env_fn rows e s.
Proof.
  revert e s pred_data.
  induction rows as [|[t r] rows IH]; intros e s pred_data; [done |].
  simpl. destruct (eval_fn env_fn r s e) as [[[e' s'] l]|]; simpl; [|done].
  rewrite IH. by destruct (trial_scores env_fn rows e' s').
Qed.

End eval_facts.

Lemma column_names_ll_frame (n : nat) (col : list string) (filled : list cell)
    (rest : nat) :
  column_names (ll_frame n col filled rest) = col.
Proof.
  unfold column_names, ll_frame. simpl.
  induction col as [|c col IH]; [done |]. simpl. by f_equal.
Qed.

Lemma set_loc_ll_frame (n : nat) (col : list string) (filled : list cell)
    (rest : nat) (v : cell) :
  "ll"%string ∈ col →
  set_loc (length filled) "ll" v (ll_frame n col filled (S rest))
  = ll_frame n col (filled ++ [v]) rest.
Proof.
  intros Hin. unfold set_loc.
  rewrite column_names_ll_frame, decide_True by exact Hin.
  unfold ll_frame. simpl. f_equal. rewrite <- list_fmap_compose.
  apply list_fmap_ext. intros _ c _. simpl.
  destruct (decide (c = "ll"%string)) as [->|Hc]; [|done].
  f_equal. rewrite insert_app_r_alt, Nat.sub_diag by lia.
  simpl. by rewrite <- app_assoc.
Qed.

Lemma fill_ll_frame (n : nat) (col : list string) :
  "ll"%string ∈ col →
  ∀ (ls : list R) (filled : list cell),
    foldl (λ pred_data tl, set_loc tl.1 "ll" (Some (VNum tl.2)) pred_data)
          (ll_frame n col filled (length ls))
          (zip (seq (length filled) (length ls)) ls)
    = ll_frame n col (filled ++ number_column ls) 0.
Proof.
  intros Hin. induction ls as [|l ls IH]; intros filled.
  - simpl. by rewrite app_nil_r.
  - change (foldl (λ pred_data tl, set_loc tl.1 "ll" (Some (VNum tl.2)) pred_data)
              (set_loc (length filled) "ll" (Some (VNum l))
                 (ll_frame n col filled (S (length ls))))
              (zip (seq (S (length filled)) (length ls)) ls)
            = ll_frame n col (filled ++ Some (VNum l) :: number_column ls) 0).
    rewrite set_loc_ll_frame by exact Hin.
    specialize (IH (filled ++ [Some (VNum l)])).
    replace (length (filled ++ [Some (VNum l)])) with (S (length filled)) in IH
      by (rewrite length_app; simpl; lia).
    etrans; [exact IH |]. by rewrite <- app_assoc.
Qed.

Lemma nan_frame_ll_frame (n : nat) (col : list string) :
  nan_frame n col = ll_frame n col [] n.
Proof.
  unfold nan_frame, ll_frame. f_equal.
  induction col as [|c col IH]; [done |].
  simpl. f_equal; [|exact IH]. by destruct (decide (c = "ll"%string)).
Qed.

Lemma all_nan_replicate (n : nat) : all_nan (replicate n None) = true.
Proof. induction n as [|n IH]; [done |]. simpl. exact IH. Qed.

Lemma all_nan_number_column (ls : list R) :
  ls ≠ [] → all_nan (number_column ls) = false.
Proof. by destruct ls. Qed.

Lemma dropna_ll_frame (n : nat) (col : list string) (ls : list R) :
  ls ≠ [] →
  columns (dropna_columns (ll_frame n col (number_column ls) 0))
  = map (λ c, (c, number_column ls)) (filter (λ c, c = "ll"%string) col).
Proof.
  intros Hls. unfold dropna_columns, ll_frame. cbn [columns replicate].
  rewrite app_nil_r.
  induction col as [|c col IH]; [done |].
  cbn [map]. rewrite !filter_cons. cbn [fst snd].
  destruct (decide (c = "ll"%string)) as [->|Hc].
  - rewrite all_nan_number_column by exact Hls.
    rewrite decide_True by done. cbn [map]. f_equal. exact IH.
  - rewrite all_nan_replicate. rewrite decide_False by done. exact IH.
Qed.

Section eval_block_facts.

Context {env subj rng : Type}.
Variable agent : agent_class env subj.
Variable env_fn : env_class env subj rng.

(** [eval_block] goes through exactly when the scoring of the block
    does, and then appends the contributions under the name [ll]. *)
Lemma eval_block_block_scores (block_data : DataFrame) (params : list R) :
  wrapper.eval_block agent env_fn block_data params
  = (λ lls, {| nrows := nrows block_data;
               columns := columns block_data ++
                 map (λ c, (c, number_column lls))
                     (filter (λ c, c = "ll"%string)
                             ("ll"%string :: agent_voi agent)) |})
    <$> block_scores agent env_fn params block_data.
Proof.
  unfold wrapper.eval_block, block_scores.
  destruct (loc block_data 0 "block_type") as [bt|] eqn:Hloc; simpl; [|done].
  apply loc_nonempty in Hloc.
  destruct (env_new env_fn bt) as [e|]; simpl; [|done].
  destruct (agent_new agent e params) as [s|]; simpl; [|done].
  set (col := "ll"%string :: agent_voi agent).
  pose proof (eval_block_loop env_fn (iterrows block_data) e s
                (nan_frame (nrows block_data) col)) as Hloop.
  destruct (trial_scores env_fn (iterrows block_data) e s) as [lls|] eqn:Hls.
  - apply trial_scores_length in Hls. rewrite length_iterrows in Hls.
    destruct (for_each _ _ _) as [[[e' s'] pred_data]|]; simpl in *; [|done].
    injection Hloop as ->. rewrite iterrows_labels, <- Hls.
    assert (Hin : "ll"%string ∈ col) by (apply elem_of_cons; by left).
    pose proof (fill_ll_frame (length lls) col Hin lls []) as Hfill.
    rewrite nan_frame_ll_frame.
    change (length (@nil cell)) with 0%nat in Hfill.
    rewrite Hfill. change ([] ++ number_column lls) with (number_column lls).
    unfold concat_columns. cbn [nrows columns].
    rewrite dropna_ll_frame by (destruct lls; simpl in *; [lia | done]).
    rewrite Hls. subst col. rewrite filter_cons, decide_True by done.
    reflexivity.
  - destruct (for_each _ _ _) as [[[e' s'] pred_data]|]; simpl in *; done.
Qed.

(** C2, as the code has it.  When the scoring of a block goes through,
    [eval_block] returns the trial data with the per-trial
    log-likelihood contributions appended, aligned per trial, under the
    name [ll]; nothing is recorded for the agent's variables of
    interest: every column of the result is a column of the trial data
    or is named [ll]. *)
Theorem eval_block_records_ll
    (block_data : DataFrame) (params : list R) (lls : list R) :
  block_scores agent env_fn params block_data = Ok lls →
  ∃ out,
    wrapper.eval_block agent env_fn block_data params = Ok out
    ∧ nrows out = nrows block_data
    ∧ length lls = nrows block_data
    ∧ columns out = columns block_data ++
        map (λ c, (c, number_column lls))
            (filter (λ c, c = "ll"%string) ("ll"%string :: agent_voi agent))
    ∧ ("ll"%string, number_column lls) ∈ columns out
    ∧ ∀ v, v ∈ column_names out →
           v ∈ column_names block_data ∨ v = "ll"%string.
Proof.
  intros Hs. rewrite eval_block_block_scores, Hs.
  eexists. split; [reflexivity |]. cbn [nrows columns].
  split; [done |]. split.
  { unfold block_scores in Hs.
    destruct (loc block_data 0 "block_type") as [bt|]; simpl in Hs; [|done].
    destruct (env_new env_fn bt) as [e|]; simpl in Hs; [|done].
    destruct (agent_new agent e params) as [s|]; simpl in Hs; [|done].
    apply trial_scores_length in Hs. by rewrite length_iterrows in Hs. }
  split; [done |]. split.
  { apply elem_of_app. right. rewrite filter_cons, decide_True by done.
    cbn [map]. apply elem_of_cons. by left. }
  intros v. unfold column_names. cbn [columns]. rewrite fmap_app.
  intros [Hv|Hv]%elem_of_app; [by left | right].
  apply list_elem_of_fmap in Hv as [[c vals] [-> Hc]]. cbn [fst].
  apply list_elem_of_fmap in Hc as [c' [[= -> ->] Hc']].
  by apply list_elem_of_filter in Hc' as [-> _].
Qed.

End eval_block_facts.

Lemma eval_block_records_ll_witness :
  ∃ lls,
    block_scores RLvoi_class toy_env.cls [0; 0] (toy_env.block 2) = Ok lls
    ∧ ∃ out,
        wrapper.eval_block RLvoi_class toy_env.cls (toy_env.block 2) [0; 0]
          = Ok out
        ∧ nrows out = nrows (toy_env.block 2)
        ∧ length lls = nrows (toy_env.block 2)
        ∧ columns out = columns (toy_env.block 2) ++
            map (λ c, (c, number_column lls))
                (filter (λ c, c = "ll"%string)
                        ("ll"%string :: agent_voi (RLvoi_class (env := toy_env.t))))
        ∧ ("ll"%string, number_column lls) ∈ columns out
        ∧ ∀ v, v ∈ column_names out →
               v ∈ column_names (toy_env.block 2) ∨ v = "ll"%string.
Proof.
  eexists.
  refine (let H := _ in
          conj H (eval_block_records_ll RLvoi_class toy_env.cls _ _ _ H)).
  reflexivity.
Defined.

(** C2 as stated fails: an agent class that declares the variable of
    interest [pS1], whose getter exists, is evaluated on a block of one
    trial; the table returned, by [eval_block] and by [eval], has no
    column [pS1]. *)
Lemma eval_omits_declared_voi :
  ∃ out out',
    wrapper.eval_block RLvoi_class toy_env.cls (toy_env.block 1) [0; 0] = Ok out
    ∧ wrapper.eval RLvoi_class toy_env.cls
        [("b1"%string, toy_env.block 1)] [0; 0] = Ok out'
    ∧ "pS1"%string ∈ agent_voi (RLvoi_class (env := toy_env.t))
    ∧ column_names out = ["block_type"; "s"; "ll"]%string
    ∧ column_names out' = ["block_type"; "s"; "ll"]%string
    ∧ ("pS1"%string ∉ column_names out)
    ∧ ("pS1"%string ∉ column_names out').
Proof.
  eexists _, _. split; [reflexivity |]. split; [reflexivity |].
  split; [apply elem_of_cons; by left |].
  split; [reflexivity |]. split; [reflexivity |].
  split; intros H;
    repeat (apply elem_of_cons in H as [H|H]; [discriminate H |]);
    apply elem_of_nil in H; exact H.
Qed.

(** ** Hooks *)

Lemma logs_extended_refl (d : list (string * list value)) :
  logs_extended 0 d d.
Proof.
  apply Forall2_same_length_lookup. split; [done |].
  intros i kl kl' H1 H2. assert (kl = kl') as <- by congruence.
  split; [done |]. exists []. by rewrite app_nil_r.
Qed.

Lemma logs_extended_trans (n m : nat) (d d' d'' : list (string * list value)) :
  logs_extended n d d' → logs_extended m d' d'' →
  logs_extended (n + m) d d''.
Proof.
  unfold logs_extended. intros H. revert d''.
  induction H as [|kl kl' d d' (Hk & new & Hnew & Hlen) _ IH];
    intros d'' H'; inversion H' as [|? kl'' ? d''0 (Hk' & new' & Hnew' & Hlen') Hrest];
    subst; constructor.
  - split; [congruence |]. exists (new ++ new').
    rewrite Hnew', Hnew, <- app_assoc, length_app. split; [done | lia].
  - by apply IH.
Qed.

Lemma logs_extended_keys (n : nat) (d d' : list (string * list value)) :
  logs_extended n d d' → d'.*1 = d.*1.
Proof.
  induction 1 as [|kl kl' d d' (Hk & _) _ IH]; [done |].
  simpl. f_equal; [exact Hk | exact IH].
Qed.

Lemma logs_extended_length (n m : nat) (d d' : list (string * list value)) :
  logs_extended n d d' →
  Forall (λ kl, length kl.2 = m) d →
  Forall (λ kl, length kl.2 = (m + n)%nat) d'.
Proof.
  induction 1 as [|kl kl' d d' (Hk & new & Hnew & Hlen) _ IH];
    intros Hd; [constructor |].
  inversion Hd; subst. constructor; [|by apply IH].
  rewrite Hnew, length_app. lia.
Qed.

(** [register_hooks] turns recording on and leaves one empty log per
    name, whatever the wrapper held. *)
Lemma dict_set_keys {V} (k : string) (v : V) (d : list (string * V)) :
  ∀ k', k' ∈ (dict_set k v d).*1 ↔ k' = k ∨ k' ∈ d.*1.
Proof.
  induction d as [|[k0 v0] d IH]; intros k'; simpl.
  - rewrite elem_of_cons, elem_of_nil. reflexivity.
  - destruct (decide (k = k0)) as [->|Hne]; simpl.
    + rewrite !elem_of_cons. tauto.
    + rewrite !elem_of_cons, IH. tauto.
Qed.

Lemma dict_set_NoDup {V} (k : string) (v : V) (d : list (string * V)) :
  NoDup d.*1 → NoDup (dict_set k v d).*1.
Proof.
  induction d as [|[k0 v0] d IH]; simpl; intros Hd.
  - apply NoDup_singleton.
  - destruct (decide (k = k0)) as [->|Hne]; simpl; [done |].
    apply NoDup_cons in Hd as [Hk0 Hd]. apply NoDup_cons. split; [|by apply IH].
    rewrite dict_set_keys. intros [?|?]; [congruence | done].
Qed.

Lemma dict_set_empty_logs (k : string) (d : list (string * list value)) :
  Forall (λ kl, kl.2 = []) d → Forall (λ kl, kl.2 = []) (dict_set k [] d).
Proof.
  induction 1 as [|[k0 v0] d H0 Hd IH]; simpl.
  - by repeat constructor.
  - destruct (decide (k = k0)); constructor; done || exact Hd || exact IH.
Qed.

Lemma register_hooks_fresh (args : list string) (self : wrapper.t) :
  wrapper.use_hook (wrapper.register_hooks args self) = true
  ∧ ∃ d, wrapper.insights (wrapper.register_hooks args self) = Some d
         ∧ (∀ k, k ∈ d.*1 ↔ k ∈ args)
         ∧ NoDup d.*1
         ∧ Forall (λ kl, kl.2 = []) d.
Proof.
  split; [done |]. eexists. split; [reflexivity |].
  assert (H : ∀ (d0 : list (string * list value)),
             NoDup d0.*1 → Forall (λ kl, kl.2 = []) d0 →
             let d := foldl (λ d k, dict_set k [] d) d0 args in
             (∀ k, k ∈ d.*1 ↔ k ∈ d0.*1 ∨ k ∈ args)
             ∧ NoDup d.*1 ∧ Forall (λ kl, kl.2 = []) d).
  { induction args as [|a args IH]; intros d0 Hnd Hemp; simpl.
    - split; [|done]. intros k. rewrite elem_of_nil. tauto.
    - destruct (IH (dict_set a [] d0)) as (Hk & Hnd' & Hemp').
      { by apply dict_set_NoDup. } { by apply dict_set_empty_logs. }
      split; [|done]. intros k. rewrite Hk, dict_set_keys, elem_of_cons.
      tauto. }
  destruct (H [] (NoDup_nil_2) (Forall_nil_2 _)) as (Hk & Hnd & Hemp).
  split; [|done]. intros k. rewrite Hk. simpl. rewrite elem_of_nil.
  tauto.
Qed.

Section sim_facts.

Context {env subj rng : Type}.
Variable agent : agent_class env subj.
Variable env_fn : env_class env subj rng.

(** Reading the hooked getters appends one entry to every log. *)
Lemma hooks_append (s : subj) (d d' : list (string * list value)) :
  mapM (λ kl, x ← agent_get agent kl.1 s; mret (kl.1, kl.2 ++ [x])) d = Ok d' →
  logs_extended 1 d d'.
Proof.
  revert d'. induction d as [|kl d IH]; intros d'; simpl.
  - intros [= <-]. constructor.
  - destruct (agent_get agent kl.1 s) as [x|]; simpl; [|done].
    destruct (mapM _ d) as [d1|]; simpl; [|done].
    intros [= <-]. constructor; [|by apply IH].
    split; [done |]. by exists [x].
Qed.

Lemma sim_trial_logs (tr : nat * row) (e e' : env) (s s' : subj) (g g' : rng)
    (d : list (string * list value)) ins' (pred_data pred_data' : DataFrame) :
  wrapper.sim_trial agent env_fn true tr (e, s, g, Some d, pred_data)
    = Ok (e', s', g', ins', pred_data') →
  ∃ d', ins' = Some d' ∧ logs_extended 1 d d'.
Proof.
  unfold wrapper.sim_trial. destruct tr as [t r].
  destruct (sim_fn env_fn r s g e) as [[[[e1 s1] g1] subj_voi]|];
    simpl; [|done].
  destruct (for_each _ (agent_voi agent) pred_data) as [pred1|];
    simpl; [|done].
  destruct (mapM _ d) as [d1|] eqn:Hd1; simpl; [|done].
  destruct (for_each _ (enumerate _) pred1) as [pred2|]; simpl; [|done].
  intros [= <- <- <- <- <-]. exists d1. split; [done |].
  by apply hooks_append with s1.
Qed.

Lemma sim_loop_logs (rows : list (nat * row)) :
  ∀ (e e' : env) (s s' : subj) (g g' : rng) d ins'
    (pred_data pred_data' : DataFrame),
    for_each (wrapper.sim_trial agent env_fn true) rows
             (e, s, g, Some d, pred_data)
      = Ok (e', s', g', ins', pred_data') →
    ∃ d', ins' = Some d' ∧ logs_extended (length rows) d d'.
Proof.
  induction rows as [|tr rows IH]; intros e e' s s' g g' d ins' p p'; simpl.
  - intros [= <- <- <- <- <-]. exists d. split; [done |].
    apply logs_extended_refl.
  - destruct (wrapper.sim_trial agent env_fn true tr (e, s, g, Some d, p))
      as [[[[[e1 s1] g1] ins1] p1]|] eqn:H1; simpl; [|done].
    apply sim_trial_logs in H1 as (d1 & -> & Hext1).
    intros (d' & -> & Hext)%IH. exists d'. split; [done |].
    by apply (logs_extended_trans 1 (length rows) d d1 d').
Qed.

Lemma sim_block_logs (block_data : DataFrame) (params : list R) (g g' : rng)
    (self self' : wrapper.t) (d : list (string * list value))
    (out : DataFrame) :
  wrapper.use_hook self = true →
  wrapper.insights self = Some d →
  wrapper.sim_block agent env_fn block_data params g self
    = Ok (self', g', out) →
  wrapper.use_hook self' = true
  ∧ ∃ d', wrapper.insights self' = Some d'
          ∧ logs_extended (nrows block_data) d d'.
Proof.
  intros Hhook Hins. unfold wrapper.sim_block. rewrite Hhook, Hins.
  destruct (loc block_data 0 "block_type") as [bt|]; simpl; [|done].
  destruct (env_new env_fn bt) as [e|]; simpl; [|done].
  destruct (agent_new agent e params) as [s|]; simpl; [|done].
  destruct (for_each _ _ _) as [[[[[e1 s1] g1] ins1] p1]|] eqn:Hloop;
    simpl; [|done].
  apply sim_loop_logs in Hloop as (d' & -> & Hext).
  rewrite length_iterrows in Hext.
  intros [= <- <- <-]. split; [done |]. by exists d'.
Qed.

Lemma drop_columns_nrows (vs : list string) (block_data : DataFrame) :
  nrows (foldl (λ block_data v,
                  if decide (v ∈ column_names block_data)
                  then drop_column v block_data else block_data)
               block_data vs)
  = nrows block_data.
Proof.
  revert block_data. induction vs as [|v vs IH]; intros block_data; [done |].
  simpl. rewrite IH. by destruct (decide (v ∈ column_names block_data)).
Qed.

Lemma sim_blocks_logs (params : list R) (data : wrapper.dataset) :
  ∀ (self self' : wrapper.t) (g g' : rng) (acc acc' : list DataFrame) d,
    wrapper.use_hook self = true →
    wrapper.insights self = Some d →
    for_each (λ kb '(self, g, sim_data),
                let block_data := kb.2 in
                let block_data :=
                  foldl (λ block_data v,
                           if decide (v ∈ column_names block_data)
                           then drop_column v block_data
                           else block_data)
                        block_data (env_fn_voi env_fn) in
                '(self, g, out) ←
                  wrapper.sim_block agent env_fn block_data params g self;
                mret (self, g, sim_data ++ [out]))
             data (self, g, acc) = Ok (self', g', acc') →
    wrapper.use_hook self' = true
    ∧ ∃ d', wrapper.insights self' = Some d'
            ∧ logs_extended (ntrials data) d d'.
Proof.
  induction data as [|kb data IH]; intros self self' g g' acc acc' d Hh Hi.
  - simpl. intros [= <- <- <-]. split; [done |]. exists d. split; [done |].
    apply logs_extended_refl.
  - cbn [for_each]. cbv zeta.
    destruct (wrapper.sim_block _ _ _ _ _ _) as [[[self1 g1] out]|] eqn:Hb;
      simpl; [|done].
    apply (sim_block_logs _ _ _ _ _ _ d) in Hb as (Hh1 & d1 & Hi1 & Hext1);
      [|done..].
    rewrite drop_columns_nrows in Hext1.
    intros (Hh' & d' & Hi' & Hext)%(IH _ _ _ _ _ _ d1 Hh1 Hi1).
    split; [done |]. exists d'. split; [done |].
    by apply (logs_extended_trans (nrows kb.2) (ntrials data) d d1 d').
Qed.

(** A simulation with hooks on appends to every log one entry per
    trial of the dataset, and keeps what the logs held. *)
Lemma sim_logs (data : wrapper.dataset) (params : list R) (g g' : rng)
    (self self' : wrapper.t) (d : list (string * list value))
    (out : DataFrame) :
  wrapper.use_hook self = true →
  wrapper.insights self = Some d →
  wrapper.sim agent env_fn data params g self = Ok (self', g', out) →
  wrapper.use_hook self' = true
  ∧ ∃ d', wrapper.insights self' = Some d'
          ∧ logs_extended (ntrials data) d d'.
Proof.
  intros Hh Hi. unfold wrapper.sim.
  destruct (for_each _ data _) as [[[self1 g1] sim_data]|] eqn:Hloop;
    simpl; [|done].
  apply (sim_blocks_logs _ _ _ _ _ _ _ _ d Hh Hi) in Hloop.
  destruct (concat_rows sim_data); simpl; [|done].
  by intros [= <- <- <-].
Qed.

(** C10. [register_hooks] turns recording on and leaves exactly one
    empty log per requested name, whatever logs there were.  Each later
    [sim] that returns appends to every log exactly one entry per trial
    of the dataset and keeps the earlier entries: after one [sim] over
    [n] trials every log has [n] entries, and after a second [sim]
    without registering again every log has [2 n] entries, the first
    [n] of them those of the first run. *)
Theorem hooks_accumulate
    (args : list string) (self : wrapper.t) (data : wrapper.dataset)
    (params params' : list R) (g g1 g2 : rng) (self1 self2 : wrapper.t)
    (out1 out2 : DataFrame) :
  let self0 := wrapper.register_hooks args self in
  wrapper.sim agent env_fn data params g self0 = Ok (self1, g1, out1) →
  wrapper.sim agent env_fn data params' g1 self1 = Ok (self2, g2, out2) →
  wrapper.use_hook self0 = true
  ∧ ∃ d0 d1 d2,
      wrapper.insights self0 = Some d0
      ∧ (∀ k, k ∈ d0.*1 ↔ k ∈ args) ∧ NoDup d0.*1
      ∧ Forall (λ kl, kl.2 = []) d0
      ∧ wrapper.insights self1 = Some d1
      ∧ wrapper.insights self2 = Some d2
      ∧ d1.*1 = d0.*1 ∧ d2.*1 = d0.*1
      ∧ Forall (λ kl, length kl.2 = ntrials data) d1
      ∧ Forall (λ kl, length kl.2 = (2 * ntrials data)%nat) d2
      ∧ logs_extended (ntrials data) d1 d2.
Proof.
  intros self0 Hsim1 Hsim2.
  destruct (register_hooks_fresh args self) as (Hh0 & d0 & Hi0 & Hk & Hnd & He).
  fold self0 in Hh0, Hi0.
  destruct (sim_logs _ _ _ _ _ _ d0 _ Hh0 Hi0 Hsim1) as (Hh1 & d1 & Hi1 & Hx1).
  destruct (sim_logs _ _ _ _ _ _ d1 _ Hh1 Hi1 Hsim2) as (Hh2 & d2 & Hi2 & Hx2).
  split; [done |]. exists d0, d1, d2.
  assert (Hl0 : Forall (λ kl : string * list value, length kl.2 = 0%nat) d0).
  { eapply Forall_impl; [exact He |]. by intros kl ->. }
  pose proof (logs_extended_length _ _ _ _ Hx1 Hl0) as Hl1. simpl in Hl1.
  pose proof (logs_extended_length _ _ _ _ Hx2 Hl1) as Hl2.
  replace (ntrials data + ntrials data)%nat with (2 * ntrials data)%nat
    in Hl2 by lia.
  pose proof (logs_extended_keys _ _ _ Hx1) as Hk1.
  pose proof (logs_extended_keys _ _ _ Hx2) as Hk2.
  split_and!; try done. etrans; [exact Hk2 | exact Hk1].
Qed.

End sim_facts.

Lemma hooks_accumulate_witness :
  ∃ self1 g1 out1 self2 g2 out2,
    let data := [("b1"%string, toy_env.block 2); ("b2"%string, toy_env.block 1)] in
    let self0 := wrapper.register_hooks ["pS1"; "pi1"]%string wrapper.init in
    wrapper.sim RL_class toy_env.cls data [0; 0] 0%nat self0
      = Ok (self1, g1, out1)
    ∧ wrapper.sim RL_class toy_env.cls data [0; 0] g1 self1
      = Ok (self2, g2, out2)
    ∧ wrapper.use_hook self0 = true
    ∧ ∃ d0 d1 d2,
        wrapper.insights self0 = Some d0
        ∧ (∀ k, k ∈ d0.*1 ↔ k ∈ ["pS1"; "pi1"]%string) ∧ NoDup d0.*1
        ∧ Forall (λ kl, kl.2 = []) d0
        ∧ wrapper.insights self1 = Some d1
        ∧ wrapper.insights self2 = Some d2
        ∧ d1.*1 = d0.*1 ∧ d2.*1 = d0.*1
        ∧ Forall (λ kl, length kl.2 = ntrials data) d1
        ∧ Forall (λ kl, length kl.2 = (2 * ntrials data)%nat) d2
        ∧ logs_extended (ntrials data) d1 d2.
Proof.
  eexists _, _, _, _, _, _. cbv zeta.
  split; [reflexivity |]. split; [reflexivity |].
  eapply (hooks_accumulate RL_class toy_env.cls _ _ _ [0; 0] [0; 0] 0%nat);
    reflexivity.
Defined.

(** * Further properties *)

(** ** Parameter names *)

Lemma flatten_concat {A} (l : list (list A)) : flatten l = concat l.
Proof.
  unfold flatten. induction l as [|x l IH]; [done |].
  cbn [mbind list_bind]. simpl. rewrite <- IH. f_equal.
  induction x as [|a x IHx]; [done |]. simpl. by f_equal.
Qed.

Lemma flatten_map {A B} (f : A → list B) (l : list A) :
  flatten (map f l) = l ≫= f.
Proof.
  rewrite flatten_concat. induction l as [|x l IH]; [done |].
  simpl. by rewrite IH.
Qed.

Lemma length_bind_const {A B} (f : A → list B) (l : list A) (n : nat) :
  (∀ x, length (f x) = n) → length (l ≫= f) = (length l * n)%nat.
Proof.
  intros Hf. induction l as [|x l IH]; [done |].
  cbn [mbind list_bind]. rewrite length_app, Hf.
  change (length (x :: l)) with (S (length l)).
  etrans; [apply f_equal, IH |]. lia.
Qed.

(** X1. [get_param_name] returns one name per combination of a block
    type, a feedback type and a parameter, so as many names as the product
    of the three lengths; a string is among them exactly when it is
    [key_j_i] for a parameter [key], a block type [j] and a feedback type
    [i]; the block types vary slowest, the parameters fastest, as the
    eight names of the delta-rule agent under the default types show. *)
Theorem get_param_name_spec (params block_types feedback_types : list string) :
  length (get_param_name params block_types feedback_types)
    = (length block_types * (length feedback_types * length params))%nat
  ∧ (∀ x, x ∈ get_param_name params block_types feedback_types ↔
          ∃ key j i, key ∈ params ∧ j ∈ block_types ∧ i ∈ feedback_types
                     ∧ x = key +:+ "_" +:+ j +:+ "_" +:+ i)
  ∧ (∀ j, get_param_name params (j :: block_types) feedback_types
          = get_param_name params [j] feedback_types
            ++ get_param_name params block_types feedback_types)
  ∧ get_param_name RL.p_name default_block_types default_feedback_types
    = ["alpha_sta_gain"; "beta_sta_gain"; "alpha_sta_loss"; "beta_sta_loss";
       "alpha_vol_gain"; "beta_vol_gain"; "alpha_vol_loss"; "beta_vol_loss"
      ]%string.
Proof.
  split; [|split; [|split; [|reflexivity]]]; unfold get_param_name.
  - rewrite flatten_map. apply length_bind_const. intros j.
    rewrite flatten_map. apply length_bind_const. intros i.
    apply length_map.
  - intros x. rewrite flatten_map, list_elem_of_bind. split.
    + intros (j & Hx & Hj). rewrite flatten_map, list_elem_of_bind in Hx.
      destruct Hx as (i & Hx & Hi).
      apply list_elem_of_fmap in Hx as (key & -> & Hkey).
      by exists key, j, i.
    + intros (key & j & i & Hkey & Hj & Hi & ->). exists j. split; [|done].
      rewrite flatten_map, list_elem_of_bind. exists i. split; [|done].
      apply list_elem_of_fmap. by exists key.
  - intros j. rewrite !flatten_map. cbn [mbind list_bind].
    by rewrite app_nil_r.
Qed.

(** ** The transforms *)

Lemma inv_1_plus (c : R) : 0 < c → 0 < 1 / (1 + c) < 1.
Proof.
  intros Hc. assert (Ht : 0 < / (1 + c)) by (apply Rinv_0_lt_compat; lra).
  assert (He : (1 + c) * / (1 + c) = 1) by (apply Rinv_r; lra).
  unfold Rdiv. rewrite Rmult_1_l. nra.
Qed.

Lemma inv_1_plus_anti (c d : R) :
  0 < c → c <= d → 1 / (1 + d) <= 1 / (1 + c).
Proof.
  intros Hc Hcd. unfold Rdiv. rewrite !Rmult_1_l.
  apply Rinv_le_contravar; lra.
Qed.

Lemma np_clip_mono (x y lo hi : R) :
  x <= y → np_clip x lo hi <= np_clip y lo hi.
Proof.
  intros Hxy. unfold np_clip.
  by apply Rle_min_compat_l, Rle_max_compat_r.
Qed.

Lemma clip_exp_pos (x : R) : 0 < clip_exp x.
Proof. apply exp_pos. Qed.

Lemma clip_exp_le (x : R) : clip_exp x <= exp 50.
Proof. apply exp_le_mono, np_clip_bounds, max_lt_50. Qed.

Lemma clip_exp_mono (x y : R) : x <= y → clip_exp x <= clip_exp y.
Proof. intros Hxy. by apply exp_le_mono, np_clip_mono. Qed.

Lemma sigmoid_0_1 (x : R) : 0 < sigmoid x < 1.
Proof. apply inv_1_plus, clip_exp_pos. Qed.

Lemma clip_exp_inside (x : R) : - max_ <= x <= 50 → clip_exp x = exp x.
Proof. intros Hx. unfold clip_exp. by rewrite np_clip_inside. Qed.

Lemma clip_exp_above (x : R) : 50 <= x → clip_exp x = exp 50.
Proof.
  intros Hx. unfold clip_exp, np_clip. f_equal. apply Rmin_left.
  apply Rle_trans with x; [done | apply Rmax_l].
Qed.

Lemma max_large : 50 < max_.
Proof.
  unfold max_. change 10 with (IZR 10). rewrite pow_IZR.
  apply (IZR_lt 50 (10 ^ Z.of_nat 13)). by vm_compute.
Qed.

(** X2. The sigmoid never leaves the interval from [1 / (1 + exp 50)],
    which is positive, to 1: the exponent being clipped at 50, it cannot
    reach 0. *)
Theorem sigmoid_range (x : R) :
  0 < 1 / (1 + exp 50) ∧ 1 / (1 + exp 50) <= sigmoid x <= 1.
Proof.
  split; [apply inv_1_plus, exp_pos |]. split.
  - apply inv_1_plus_anti; [apply clip_exp_pos | apply clip_exp_le].
  - apply Rlt_le, sigmoid_0_1.
Qed.

(** X3. The clipped exponential and the sigmoid are monotone: a larger
    raw parameter never gives a smaller native one. *)
Theorem transforms_monotone (x y : R) :
  x <= y → clip_exp x <= clip_exp y ∧ sigmoid x <= sigmoid y.
Proof.
  intros Hxy. split; [by apply clip_exp_mono |].
  apply inv_1_plus_anti; [apply clip_exp_pos |].
  apply clip_exp_mono. lra.
Qed.

Lemma transforms_monotone_witness :
  0 <= 1 ∧ clip_exp 0 <= clip_exp 1 ∧ sigmoid 0 <= sigmoid 1.
Proof.
  assert (H : 0 <= 1) by lra.
  exact (conj H (transforms_monotone 0 1 H)).
Defined.

(** X4. Between -50 and 50 the clipping is invisible: [clip_exp] is the
    exponential, of the input and of the negated input, and the sigmoid
    is the logistic function [1 / (1 + exp (- x))]. *)
Theorem transforms_unclipped (x : R) :
  -50 <= x <= 50 →
  clip_exp x = exp x
  ∧ clip_exp (- x) = exp (- x)
  ∧ sigmoid x = 1 / (1 + exp (- x)).
Proof.
  intros Hx. pose proof max_large as Hm.
  assert (H1 : clip_exp x = exp x) by (apply clip_exp_inside; lra).
  assert (H2 : clip_exp (- x) = exp (- x)) by (apply clip_exp_inside; lra).
  split; [exact H1 |]. split; [exact H2 |]. unfold sigmoid. by rewrite H2.
Qed.

Lemma transforms_unclipped_witness :
  -50 <= 1 <= 50
  ∧ clip_exp 1 = exp 1
  ∧ clip_exp (- 1) = exp (- 1)
  ∧ sigmoid 1 = 1 / (1 + exp (- 1)).
Proof.
  assert (H : -50 <= 1 <= 50) by lra.
  exact (conj H (transforms_unclipped 1 H)).
Defined.

(** X5. Above 50 the exponential saturates: [clip_exp x] is [exp 50],
    the sigmoid of [- x] is stuck at [1 / (1 + exp 50)], and the
    complement rule of the logistic function fails there. *)
Theorem transforms_saturate (x : R) :
  50 < x →
  clip_exp x = exp 50
  ∧ sigmoid (- x) = 1 / (1 + exp 50)
  ∧ sigmoid (- x) ≠ 1 - sigmoid x.
Proof.
  intros Hx.
  assert (H1 : clip_exp x = exp 50) by (apply clip_exp_above; lra).
  split; [exact H1 |].
  assert (H2 : sigmoid (- x) = 1 / (1 + exp 50)).
  { unfold sigmoid. by rewrite Ropp_involutive, H1. }
  split; [exact H2 |]. rewrite H2. unfold sigmoid.
  assert (Hc : clip_exp (- x) < exp (- 50)).
  { unfold clip_exp. apply exp_increasing.
    unfold np_clip. eapply Rle_lt_trans; [apply Rmin_r |].
    apply Rmax_lub_lt; [lra |]. pose proof max_large. lra. }
  pose proof (clip_exp_pos (- x)) as Hp. pose proof (exp_pos 50) as Hp50.
  assert (He : exp (- 50) * exp 50 = 1).
  { rewrite <- exp_plus. replace (-50 + 50) with 0 by lra. apply exp_0. }
  intros Heq.
  assert (Hq : (1 + clip_exp (- x)) = (1 + exp 50) * clip_exp (- x)).
  { apply (f_equal (λ v, v * (1 + exp 50) * (1 + clip_exp (- x)))) in Heq.
    field_simplify in Heq; lra. }
  nra.
Qed.

Lemma transforms_saturate_witness :
  50 < 60
  ∧ clip_exp 60 = exp 50
  ∧ sigmoid (- 60) = 1 / (1 + exp 50)
  ∧ sigmoid (- 60) ≠ 1 - sigmoid 60.
Proof.
  assert (H : 50 < 60) by lra.
  exact (conj H (transforms_saturate 60 H)).
Defined.

(** ** Sampling the buffer *)

Lemma getitem_Some (b : simpleBuffer.t) (k : string) (v : value) :
  simpleBuffer.m b !! k = Some v → simpleBuffer.getitem b k = Ok v.
Proof. intros H. unfold simpleBuffer.getitem. by rewrite H. Qed.

Lemma getitem_None (b : simpleBuffer.t) (k : string) :
  simpleBuffer.m b !! k = None →
  simpleBuffer.getitem b k = Raise (KeyError k).
Proof. intros H. unfold simpleBuffer.getitem. by rewrite H. Qed.

Lemma mapM_getitem_app (b : simpleBuffer.t) (pre post : list string)
    (vs : list value) :
  mapM (simpleBuffer.getitem b) pre = Ok vs →
  mapM (simpleBuffer.getitem b) (pre ++ post)
  = ws ← mapM (simpleBuffer.getitem b) post; mret (vs ++ ws).
Proof.
  revert vs. induction pre as [|k pre IH]; intros vs; simpl.
  - intros [= <-]. by destruct (mapM _ post).
  - destruct (simpleBuffer.getitem b k) as [v|]; simpl; [|done].
    destruct (mapM _ pre) as [vs'|] eqn:Hpre; simpl; [|done].
    intros [= <-]. rewrite (IH vs' eq_refl).
    by destruct (mapM _ post).
Qed.

Lemma mapM_getitem_present (b : simpleBuffer.t) (args : list string)
    (vs : list value) :
  Forall2 (λ k v, simpleBuffer.m b !! k = Some v) args vs →
  mapM (simpleBuffer.getitem b) args = Ok vs.
Proof.
  induction 1 as [|k v args vs Hk _ IH]; [done |].
  simpl. rewrite (getitem_Some _ _ _ Hk). simpl. by rewrite IH.
Qed.

(** X6. Sampling keys that are all in the buffer returns their values in
    the order asked: the bare value for one key, the list of values for
    any other number of keys, the empty list for none. *)
Theorem sample_present (b : simpleBuffer.t) (args : list string)
    (vs : list value) :
  Forall2 (λ k v, simpleBuffer.m b !! k = Some v) args vs →
  simpleBuffer.sample args b
  = Ok (match vs with
        | [v] => simpleBuffer.One v
        | _ => simpleBuffer.Many vs
        end)
  ∧ length vs = length args.
Proof.
  intros H. split; [|symmetry; by eapply Forall2_length].
  unfold simpleBuffer.sample. by rewrite (mapM_getitem_present _ _ _ H).
Qed.

Lemma sample_present_witness :
  let b := simpleBuffer.push (<["a" := VNum 1]> (<["b" := VStr "x"]> ∅))
                             simpleBuffer.init in
  Forall2 (λ k v, simpleBuffer.m b !! k = Some v)
          ["b"; "a"; "b"]%string [VStr "x"; VNum 1; VStr "x"]
  ∧ simpleBuffer.sample ["b"; "a"; "b"]%string b
    = Ok (simpleBuffer.Many [VStr "x"; VNum 1; VStr "x"])
  ∧ length [VStr "x"; VNum 1; VStr "x"] = length ["b"; "a"; "b"]%string.
Proof.
  intros b.
  assert (H : Forall2 (λ k v, simpleBuffer.m b !! k = Some v)
                ["b"; "a"; "b"]%string [VStr "x"; VNum 1; VStr "x"])
    by (repeat constructor).
  exact (conj H (sample_present b _ _ H)).
Defined.

(** X7. Sampling raises [KeyError] for the first requested key that is
    not in the buffer, whatever follows it in the request. *)
Theorem sample_first_missing (b : simpleBuffer.t) (pre post : list string)
    (k : string) :
  Forall (λ k', is_Some (simpleBuffer.m b !! k')) pre →
  simpleBuffer.m b !! k = None →
  simpleBuffer.sample (pre ++ k :: post) b = Raise (KeyError k).
Proof.
  intros Hpre Hk.
  assert (∃ vs, mapM (simpleBuffer.getitem b) pre = Ok vs) as [vs Hvs].
  { induction Hpre as [|k' pre [v Hv] _ [vs IH]]; [by exists [] |].
    exists (v :: vs). simpl. rewrite (getitem_Some _ _ _ Hv). simpl.
    by rewrite IH. }
  unfold simpleBuffer.sample. rewrite (mapM_getitem_app _ _ _ _ Hvs).
  simpl. by rewrite (getitem_None _ _ Hk).
Qed.

Lemma sample_first_missing_witness :
  let b := simpleBuffer.push (<["a" := VNum 1]> ∅) simpleBuffer.init in
  Forall (λ k', is_Some (simpleBuffer.m b !! k')) ["a"%string]
  ∧ simpleBuffer.m b !! "c"%string = None
  ∧ simpleBuffer.sample (["a"%string] ++ "c"%string :: ["d"%string]) b
    = Raise (KeyError "c").
Proof.
  intros b.
  assert (H1 : Forall (λ k', is_Some (simpleBuffer.m b !! k')) ["a"%string])
    by (repeat constructor; by eexists).
  assert (H2 : simpleBuffer.m b !! "c"%string = None) by reflexivity.
  exact (conj H1 (conj H2 (sample_first_missing b _ ["d"%string] _ H1 H2))).
Defined.

(** ** The delta-rule agent, continued *)

(** X8. Loading at least two raw parameters always succeeds, touches
    only [alpha] and [beta], sets them to the sigmoid of the first and the
    clipped exponential of the second, and so puts them in their native
    ranges: the learning rate between [1 / (1 + exp 50)], which is
    positive, and 1, the inverse temperature between 0 and [exp 50]. *)
Theorem load_params_native (x y : R) (rest : list R) (self : RL.t) :
  ∃ a b,
    RL.load_params (x :: y :: rest) self
    = Ok (RL.Build (Some a) (Some b) (RL.p1 self) (RL.p_S self)
                   (RL.o self) (RL.pi self) (RL.mem self))
    ∧ a = sigmoid x ∧ b = clip_exp y
    ∧ 0 < 1 / (1 + exp 50)
    ∧ 1 / (1 + exp 50) <= a <= 1
    ∧ 0 <= b <= exp 50.
Proof.
  exists (sigmoid x), (clip_exp y).
  split; [by rewrite load_params_prefix, load_params_pair |].
  split; [done |]. split; [done |].
  split; [apply inv_1_plus, exp_pos |]. split; [split |].
  - apply inv_1_plus_anti; [apply clip_exp_pos | apply clip_exp_le].
  - apply Rlt_le, sigmoid_0_1.
  - split; [apply Rlt_le, clip_exp_pos | apply clip_exp_le].
Qed.

(** X9. One [learn()] moves the estimate towards the buffered outcome
    by the fraction [alpha]: the distance to the outcome is multiplied by
    [1 - alpha], so for a learning rate between 0 and 1 the new estimate
    lies between the old one and the outcome.  The sign recorded is
    ['pos'] exactly when the outcome exceeds the old estimate, and the
    parameters, the cached policy and the buffer are left as they were. *)
Theorem learn_moves_towards_outcome
    (self : RL.t) (b : simpleBuffer.t) (s p a : R) (t f : value) :
  RL.mem self = Some b →
  simpleBuffer.m b !! "s"%string = Some (VNum s) →
  simpleBuffer.m b !! "t_type"%string = Some t →
  simpleBuffer.m b !! "f_type"%string = Some f →
  RL.p1 self = Some p →
  RL.alpha self = Some a →
  0 <= a <= 1 →
  ∃ self' p',
    RL.learn self = Ok self'
    ∧ RL.p1 self' = Some p'
    ∧ RL.p_S self' = Some [1 - p'; p']
    ∧ p' - s = (1 - a) * (p - s)
    ∧ Rmin p s <= p' <= Rmax p s
    ∧ (RL.o self' = Some "pos"%string ↔ p < s)
    ∧ (RL.o self' = Some "neg"%string ↔ s <= p)
    ∧ RL.alpha self' = RL.alpha self
    ∧ RL.beta self' = RL.beta self
    ∧ RL.pi self' = RL.pi self
    ∧ RL.mem self' = RL.mem self.
Proof.
  intros Hm Hs Ht Hf Hp Ha Ha01.
  pose proof (learn_ok self b s p a t f Hm Hs Ht Hf Hp Ha) as Hl.
  simpl in Hl. eexists _, (p + a * (s - p)). split; [exact Hl |]. simpl.
  split; [done |]. split; [done |]. split; [lra |]. split.
  { unfold Rmin, Rmax. destruct (Rle_dec p s); split; nra. }
  split.
  { destruct (Rlt_dec 0 (s - p)); split; try done; intros; lra. }
  split; [|done].
  destruct (Rlt_dec 0 (s - p)); split; try done; intros; lra.
Qed.

Lemma learn_moves_towards_outcome_witness :
  ∃ self0 self1,
    RL.new [0; 0] = Ok self0
    ∧ RL.mem_push (<["s" := VNum 1]> (<["t_type" := VStr "sta"]>
                   (<["f_type" := VStr "gain"]> ∅))) self0 = Ok self1
    ∧ ∃ self' p',
        RL.learn self1 = Ok self'
        ∧ RL.p1 self' = Some p'
        ∧ RL.p_S self' = Some [1 - p'; p']
        ∧ p' - 1 = (1 - 1 / 2) * (1 / 2 - 1)
        ∧ Rmin (1 / 2) 1 <= p' <= Rmax (1 / 2) 1
        ∧ (RL.o self' = Some "pos"%string ↔ 1 / 2 < 1)
        ∧ (RL.o self' = Some "neg"%string ↔ 1 <= 1 / 2)
        ∧ RL.alpha self' = RL.alpha self1
        ∧ RL.beta self' = RL.beta self1
        ∧ RL.pi self' = RL.pi self1
        ∧ RL.mem self' = RL.mem self1.
Proof.
  eexists _, _. split; [apply RL_new_0_0 |]. split; [reflexivity |].
  eapply (learn_moves_towards_outcome _ _ 1 (1 / 2) (1 / 2)
            (VStr "sta") (VStr "gain")); try reflexivity.
  lra.
Defined.

(** The state a run keeps: a learning rate between 0 and 1, a belief
    that is a probability, laid out as the pair, and a buffer. *)
Lemma push_and_learn_unit (self : RL.t) (m_dict : gmap string value) (a p : R) :
  RL.alpha self = Some a → 0 <= a <= 1 →
  RL.p1 self = Some p → 0 <= p <= 1 →
  is_Some (RL.mem self) →
  unit_trial_record m_dict →
  ∃ self' p',
    push_and_learn m_dict self = Ok self'
    ∧ RL.alpha self' = Some a
    ∧ RL.p1 self' = Some p' ∧ 0 <= p' <= 1
    ∧ RL.p_S self' = Some [1 - p'; p']
    ∧ is_Some (RL.mem self').
Proof.
  intros Ha Ha01 Hp Hp01 [b Hb] (s & t & f & Hs & Ht & Hf & Hs01).
  unfold push_and_learn, RL.mem_push. rewrite Hb. simpl.
  set (self1 := RL.Build _ _ _ _ _ _ _).
  pose proof (learn_ok self1 (simpleBuffer.push m_dict b) s p a t f) as Hl.
  rewrite push_m in Hl. specialize (Hl eq_refl Hs Ht Hf Hp Ha).
  eexists _, (p + a * (s - p)). split; [exact Hl |]. simpl.
  split; [done |]. split; [done |]. split; [nra |]. split; [done |].
  by eexists.
Qed.

Lemma for_each_push_and_learn_unit (ms : list (gmap string value)) (a : R) :
  0 <= a <= 1 →
  Forall unit_trial_record ms →
  ∀ self k p,
    RL.alpha self = Some a →
    RL.p1 self = Some p → 0 <= p <= 1 →
    RL.p_S self = Some [1 - p; p] →
    is_Some (RL.mem self) →
    ∃ self' p',
      for_each push_and_learn (take k ms) self = Ok self'
      ∧ RL.p1 self' = Some p' ∧ RL.p_S self' = Some [1 - p'; p']
      ∧ 0 <= p' <= 1.
Proof.
  intros Ha01. induction 1 as [|m_dict ms Hm _ IH];
    intros self k p Ha Hp Hp01 HpS Hb.
  - rewrite take_nil. by exists self, p.
  - destruct k as [|k]; [by exists self, p |].
    destruct (push_and_learn_unit self m_dict a p Ha Ha01 Hp Hp01 Hb Hm)
      as (self1 & p1 & Hl & Ha1 & Hp1 & Hp101 & HpS1 & Hb1).
    destruct (IH self1 k p1 Ha1 Hp1 Hp101 HpS1 Hb1)
      as (self' & p' & Hrun & Hres).
    exists self', p'. split; [|done]. simpl. rewrite Hl. exact Hrun.
Qed.

(** X10. The belief of a delta-rule agent stays a probability: built
    from at least two raw parameters and fed any sequence of trials whose
    outcome indicators lie between 0 and 1, the agent has after every
    [learn()] an estimate [p1] between 0 and 1, so both entries of
    [p_S = (1 - p1, p1)] are probabilities. *)
Theorem belief_stays_probability
    (params : list R) (ms : list (gmap string value)) :
  (2 ≤ length params)%nat →
  Forall unit_trial_record ms →
  ∃ self0,
    RL.new params = Ok self0
    ∧ ∀ k, ∃ self p,
        for_each push_and_learn (take k ms) self0 = Ok self
        ∧ RL.p1 self = Some p
        ∧ RL.p_S self = Some [1 - p; p]
        ∧ 0 <= p <= 1 ∧ 0 <= 1 - p <= 1.
Proof.
  intros Hlen Hms.
  destruct params as [|x [|y rest]]; simpl in Hlen; try lia.
  eexists. split.
  { unfold RL.new. rewrite load_params_prefix, load_params_pair. reflexivity. }
  intros k. pose proof (sigmoid_0_1 x) as Hsig.
  destruct (for_each_push_and_learn_unit ms (sigmoid x)
              ltac:(lra) Hms
              (RL._init_buffer (RL._init_believes
                 (RL.Build (Some (sigmoid x)) (Some (clip_exp y)) None None
                           None None None)))
              k (1 / 2) eq_refl eq_refl ltac:(lra) eq_refl
              ltac:(by eexists))
    as (self & p & Hrun & Hp & HpS & Hp01).
  exists self, p. repeat split; try done; lra.
Qed.

Lemma belief_stays_probability_witness :
  ∃ self0,
    RL.new [3; -1] = Ok self0
    ∧ ∀ k, ∃ self p,
        for_each push_and_learn
          (take k [<["s" := VNum 1]> (<["t_type" := VStr "sta"]>
                     (<["f_type" := VStr "gain"]> ∅));
                   <["s" := VNum 0]> (<["t_type" := VStr "sta"]>
                     (<["f_type" := VStr "loss"]> ∅))]) self0 = Ok self
        ∧ RL.p1 self = Some p
        ∧ RL.p_S self = Some [1 - p; p]
        ∧ 0 <= p <= 1 ∧ 0 <= 1 - p <= 1.
Proof.
  apply belief_stays_probability; [simpl; lia |].
  repeat constructor; eexists _, _, _;
    (split; [reflexivity |]; split; [reflexivity |];
     split; [reflexivity | lra]).
Defined.

(** X11. [learn()] raises [KeyError] for the first of the keys ['s'],
    ['t_type'], ['f_type'] that the buffer lacks; in particular a newly
    built agent, whose buffer is empty, cannot learn. *)
Theorem learn_first_missing_key
    (self : RL.t) (b : simpleBuffer.t) (i : nat) (k : string) :
  RL.mem self = Some b →
  list_find (λ k, simpleBuffer.m b !! k = None)
            ["s"; "t_type"; "f_type"]%string = Some (i, k) →
  RL.learn self = Raise (KeyError k).
Proof.
  intros Hm Hfind. unfold RL.learn, RL._learn_critic. rewrite Hm. simpl.
  unfold simpleBuffer.sample. simpl. unfold simpleBuffer.getitem.
  unfold list_find in Hfind. simpl in Hfind.
  destruct (simpleBuffer.m b !! "s"%string); simpl in *;
    [|by injection Hfind as _ <-].
  destruct (simpleBuffer.m b !! "t_type"%string); simpl in *;
    [|by injection Hfind as _ <-].
  destruct (simpleBuffer.m b !! "f_type"%string); simpl in *;
    [done | by injection Hfind as _ <-].
Qed.

Lemma learn_first_missing_key_witness :
  ∃ self, RL.new [0; 0] = Ok self
          ∧ RL.learn self = Raise (KeyError "s").
Proof.
  eexists. split; [apply RL_new_0_0 |].
  by apply (learn_first_missing_key _ simpleBuffer.init 0 "s").
Defined.

(** X12. An outcome indicator that is a string makes [learn()] raise
    [TypeError] where the prediction error is computed. *)
Theorem learn_outcome_not_a_number
    (self : RL.t) (b : simpleBuffer.t) (x : string) (t f : value) (p : R) :
  RL.mem self = Some b →
  simpleBuffer.m b !! "s"%string = Some (VStr x) →
  simpleBuffer.m b !! "t_type"%string = Some t →
  simpleBuffer.m b !! "f_type"%string = Some f →
  RL.p1 self = Some p →
  RL.learn self = Raise TypeError.
Proof.
  intros Hm Hs Ht Hf Hp. unfold RL.learn, RL._learn_critic.
  rewrite Hm. simpl. rewrite (sample_trial _ _ _ _ Hs Ht Hf). simpl.
  by rewrite Hp.
Qed.

Lemma learn_outcome_not_a_number_witness :
  ∃ self0 self1,
    RL.new [0; 0] = Ok self0
    ∧ RL.mem_push (<["s" := VStr "win"]> (<["t_type" := VStr "sta"]>
                   (<["f_type" := VStr "gain"]> ∅))) self0 = Ok self1
    ∧ RL.learn self1 = Raise TypeError.
Proof.
  eexists _, _. split; [apply RL_new_0_0 |]. split; [reflexivity |].
  by eapply (learn_outcome_not_a_number _ _ "win" (VStr "sta") (VStr "gain")).
Defined.

(** X13. [policy] is pure in the belief: it changes nothing but the
    cached distribution [pi], and calling it again with the same
    modulation returns the same distribution and the same state. *)
Theorem policy_pure (self self1 : RL.t) (m pi : list R) :
  RL.policy m self = Ok (self1, pi) →
  RL.policy m self1 = Ok (self1, pi)
  ∧ RL.pi self1 = Some pi
  ∧ RL.alpha self1 = RL.alpha self
  ∧ RL.beta self1 = RL.beta self
  ∧ RL.p1 self1 = RL.p1 self
  ∧ RL.p_S self1 = RL.p_S self
  ∧ RL.o self1 = RL.o self
  ∧ RL.mem self1 = RL.mem self.
Proof.
  unfold RL.policy.
  destruct (RL.beta self) as [b|] eqn:Hb; simpl; [|done].
  destruct (RL.p_S self) as [pS|] eqn:HpS; simpl; [|done].
  destruct (np_mul _ m) as [x|] eqn:Hx; simpl; [|done].
  destruct (softmax x) as [pi'|] eqn:Hpi; simpl; [|done].
  intros [= <- <-]. simpl. rewrite Hx. simpl. rewrite Hpi. done.
Qed.

Lemma policy_pure_witness :
  ∃ self self1 pi,
    RL.new [0; 0] = Ok self
    ∧ RL.policy [1; 1] self = Ok (self1, pi)
    ∧ RL.policy [1; 1] self1 = Ok (self1, pi)
    ∧ RL.pi self1 = Some pi
    ∧ RL.alpha self1 = RL.alpha self
    ∧ RL.beta self1 = RL.beta self
    ∧ RL.p1 self1 = RL.p1 self
    ∧ RL.p_S self1 = RL.p_S self
    ∧ RL.o self1 = RL.o self
    ∧ RL.mem self1 = RL.mem self.
Proof.
  eexists _, _, _. split; [apply RL_new_0_0 |].
  split; [reflexivity |]. by apply policy_pure.
Defined.

Lemma exp_le_1 (d : R) : exp d <= 1 ↔ d <= 0.
Proof.
  rewrite <- exp_0. split.
  - intros H. destruct (Rle_or_lt d 0) as [|Hlt]; [done |].
    apply exp_increasing in Hlt. lra.
  - apply exp_le_mono.
Qed.

(** The softmax of two numbers is the logistic function of their
    difference, whatever the shift. *)
Lemma softmax_pair (x0 x1 : R) :
  ∃ q0 q1,
    softmax [x0; x1] = Ok [q0; q1]
    ∧ q1 = 1 / (1 + exp (x0 - x1))
    ∧ q0 = 1 - q1.
Proof.
  unfold softmax. simpl. set (M := Rmax x0 x1).
  set (e0 := exp (x0 - M)). set (e1 := exp (x1 - M)).
  assert (H0 : 0 < e0) by apply exp_pos.
  assert (H1 : 0 < e1) by apply exp_pos.
  assert (Hd : exp (x0 - x1) = e0 / e1).
  { subst e0 e1. replace (x0 - x1) with ((x0 - M) + - (x1 - M)) by lra.
    by rewrite exp_plus, exp_Ropp. }
  eexists _, _. split; [reflexivity |]. unfold np_sum. simpl.
  rewrite Hd. split; field; lra.
Qed.

(** X14. For a belief pair and a modulation of two entries [policy]
    returns two numbers between 0 and 1 that add up to one within 1e-9;
    the second is, within 1e-9, the logistic function of the difference
    of the two scaled beliefs, and the action with the larger scaled
    belief never gets the smaller probability. *)
Theorem policy_two_actions (self : RL.t) (a b β m0 m1 : R) :
  RL.p_S self = Some [a; b] →
  RL.beta self = Some β →
  ∃ self' q0 q1,
    RL.policy [m0; m1] self = Ok (self', [q0; q1])
    ∧ RL.pi self' = Some [q0; q1]
    ∧ 0 <= q0 <= 1 ∧ 0 <= q1 <= 1
    ∧ Rabs (q0 + q1 - 1) <= / 10 ^ 9
    ∧ Rabs (q1 - 1 / (1 + exp (β * a * m0 - β * b * m1))) <= / 10 ^ 9
    ∧ (q0 <= q1 ∨ β * b * m1 < β * a * m0)
    ∧ (q1 <= q0 ∨ β * a * m0 < β * b * m1).
Proof.
  intros HpS Hb.
  destruct (softmax_pair (β * a * m0) (β * b * m1)) as (q0 & q1 & Hsm & Hq1 & Hq0).
  pose proof (policy_ok self [m0; m1] [a; b] _ _ β Hb HpS eq_refl Hsm) as Hpol.
  set (E := exp (β * a * m0 - β * b * m1)) in *.
  assert (HE : 0 < E) by apply exp_pos.
  pose proof (inv_1_plus E HE) as Hr. rewrite <- Hq1 in Hr.
  assert (Htol : 0 <= / 10 ^ 9).
  { apply Rlt_le, Rinv_0_lt_compat, pow_lt. lra. }
  assert (Hq : q1 * (1 + E) = 1) by (rewrite Hq1; field; lra).
  eexists _, q0, q1. split; [exact Hpol |]. split; [reflexivity |].
  split; [lra |]. split; [lra |]. split.
  { replace (q0 + q1 - 1) with 0 by lra. by rewrite Rabs_R0. }
  split.
  { replace (q1 - 1 / (1 + E)) with 0 by lra. by rewrite Rabs_R0. }
  split.
  - destruct (Rle_or_lt (β * a * m0) (β * b * m1)) as [Hle|Hlt]; [left | by right].
    assert (E <= 1) by (apply exp_le_1; lra). nra.
  - destruct (Rle_or_lt (β * b * m1) (β * a * m0)) as [Hle|Hlt]; [left | by right].
    assert (1 <= E).
    { destruct (Rle_or_lt 1 E) as [|Hlt]; [done |].
      assert (E <= 1) as HE1 by lra. apply exp_le_1 in HE1.
      assert (β * a * m0 - β * b * m1 = 0) as H0 by lra.
      unfold E. rewrite H0, exp_0. lra. }
    nra.
Qed.

Lemma policy_two_actions_witness :
  ∃ self,
    RL.new [0; 0] = Ok self
    ∧ ∃ self' q0 q1,
        RL.policy [1; 1] self = Ok (self', [q0; q1])
        ∧ RL.pi self' = Some [q0; q1]
        ∧ 0 <= q0 <= 1 ∧ 0 <= q1 <= 1
        ∧ Rabs (q0 + q1 - 1) <= / 10 ^ 9
        ∧ Rabs (q1 - 1 / (1 + exp (1 * (1 - 1 / 2) * 1 - 1 * (1 / 2) * 1)))
          <= / 10 ^ 9
        ∧ (q0 <= q1 ∨ 1 * (1 / 2) * 1 < 1 * (1 - 1 / 2) * 1)
        ∧ (q1 <= q0 ∨ 1 * (1 - 1 / 2) * 1 < 1 * (1 / 2) * 1).
Proof.
  eexists. split; [apply RL_new_0_0 |].
  by apply policy_two_actions.
Defined.

(** X15. With a belief pair, a modulation of one entry is broadcast to
    both actions, and a modulation of no entry or of more than two makes
    [policy] raise [ValueError]. *)
Theorem policy_modulation_shape (self : RL.t) (a b β : R) :
  RL.p_S self = Some [a; b] →
  RL.beta self = Some β →
  (∀ c, RL.policy [c] self = RL.policy [c; c] self)
  ∧ RL.policy [] self = Raise ValueError
  ∧ (∀ c d e rest, RL.policy (c :: d :: e :: rest) self = Raise ValueError).
Proof.
  intros HpS Hb. unfold RL.policy. rewrite HpS, Hb. simpl.
  split; [done |]. split; [done |]. intros c d e rest. reflexivity.
Qed.

Lemma policy_modulation_shape_witness :
  ∃ self,
    RL.new [0; 0] = Ok self
    ∧ (∀ c, RL.policy [c] self = RL.policy [c; c] self)
    ∧ RL.policy [] self = Raise ValueError
    ∧ (∀ c d e rest, RL.policy (c :: d :: e :: rest) self = Raise ValueError).
Proof.
  eexists. split; [apply RL_new_0_0 |].
  by apply (policy_modulation_shape _ (1 - 1 / 2) (1 / 2) 1).
Defined.

Lemma load_params_frame (params : list R) (self self' : RL.t) :
  RL.load_params params self = Ok self' →
  RL.p1 self' = RL.p1 self ∧ RL.p_S self' = RL.p_S self
  ∧ RL.o self' = RL.o self ∧ RL.pi self' = RL.pi self
  ∧ RL.mem self' = RL.mem self.
Proof.
  unfold RL.load_params.
  destruct (index _ 0) as [a|]; simpl; [|done].
  destruct (index _ 1) as [b|]; simpl; [|done].
  by intros [= <-].
Qed.

(** X16. On a newly built agent [get_pS1] returns the initial estimate
    0.5 and [get_pi1] raises [AttributeError], no policy having been
    computed yet; after a call of [policy] that returns, [get_pi1] reads
    the second entry of the distribution returned and [get_pS1] still
    returns 0.5. *)
Theorem getters_of_new_agent (params : list R) (self : RL.t) :
  RL.new params = Ok self →
  RL.get_pS1 self = Ok (1 / 2)
  ∧ RL.get_pi1 self = Raise (AttributeError "pi")
  ∧ ∀ m, match RL.policy m self with
         | Ok (self1, pi) =>
             RL.get_pi1 self1 = index pi 1 ∧ RL.get_pS1 self1 = Ok (1 / 2)
         | Raise _ => True
         end.
Proof.
  unfold RL.new.
  destruct (RL.load_params params RL.object) as [self0|] eqn:Hload;
    simpl; [|done].
  apply load_params_frame in Hload as (_ & _ & _ & Hpi & _).
  intros [= <-]. split; [reflexivity |]. split.
  { unfold RL.get_pi1. simpl. by rewrite Hpi. }
  intros m. unfold RL.policy. simpl.
  destruct (RL.beta self0) as [b|]; simpl; [|done].
  destruct (np_mul _ m) as [x|]; simpl; [|done].
  destruct (softmax x) as [pi|]; simpl; done.
Qed.

Lemma getters_of_new_agent_witness :
  ∃ self,
    RL.new [0; 0] = Ok self
    ∧ RL.get_pS1 self = Ok (1 / 2)
    ∧ RL.get_pi1 self = Raise (AttributeError "pi")
    ∧ ∀ m, match RL.policy m self with
           | Ok (self1, pi) =>
               RL.get_pi1 self1 = index pi 1 ∧ RL.get_pS1 self1 = Ok (1 / 2)
           | Raise _ => True
           end.
Proof.
  eexists. split; [apply RL_new_0_0 |].
  apply (getters_of_new_agent [0; 0]). apply RL_new_0_0.
Defined.

(** ** Simulation and hooks, continued *)

Lemma raises_bind {A B} (r : result A) (f : A → result B) :
  raises r → raises (r ≫= f).
Proof. intros [e ->]. by exists e. Qed.

Lemma iterrows_cons (df : DataFrame) :
  (0 < nrows df)%nat → ∃ tr rows, iterrows df = tr :: rows.
Proof.
  unfold iterrows. destruct (nrows df) as [|n]; [lia |]. intros _.
  simpl. by eexists _, _.
Qed.

Section hook_failures.

Context {env subj rng : Type}.
Variable agent : agent_class env subj.
Variable env_fn : env_class env subj rng.

Lemma hooks_unknown_getter (k : string) (s : subj)
    (d : list (string * list value)) :
  k ∈ d.*1 →
  (∀ s, raises (agent_get agent k s)) →
  raises (mapM (λ kl, x ← agent_get agent kl.1 s; mret (kl.1, kl.2 ++ [x])) d).
Proof.
  intros Hk Hget. induction d as [|kl d IH]; [by apply elem_of_nil in Hk |].
  simpl in *. apply elem_of_cons in Hk as [<-|Hk].
  - apply raises_bind, raises_bind, Hget.
  - destruct (agent_get agent kl.1 s) as [x|e]; simpl; [|by exists e].
    destruct (IH Hk) as [e ->]. by exists e.
Qed.

Lemma sim_trial_unknown_getter (k : string) (tr : nat * row) (e : env)
    (s : subj) (g : rng) (d : list (string * list value))
    (pred_data : DataFrame) :
  k ∈ d.*1 →
  (∀ s, raises (agent_get agent k s)) →
  raises (wrapper.sim_trial agent env_fn true tr (e, s, g, Some d, pred_data)).
Proof.
  intros Hk Hget. unfold wrapper.sim_trial. destruct tr as [t r].
  destruct (sim_fn env_fn r s g e) as [[[[e1 s1] g1] subj_voi]|e0];
    simpl; [|by exists e0].
  destruct (for_each _ (agent_voi agent) pred_data) as [pred1|e0];
    simpl; [|by exists e0].
  destruct (hooks_unknown_getter k s1 d Hk Hget) as [e0 ->]. by exists e0.
Qed.

Lemma sim_block_unknown_getter (k : string) (block_data : DataFrame)
    (params : list R) (g : rng) (self : wrapper.t)
    (d : list (string * list value)) :
  wrapper.use_hook self = true →
  wrapper.insights self = Some d →
  k ∈ d.*1 →
  (∀ s, raises (agent_get agent k s)) →
  raises (wrapper.sim_block agent env_fn block_data params g self).
Proof.
  intros Hh Hi Hk Hget. unfold wrapper.sim_block. rewrite Hh, Hi.
  destruct (loc block_data 0 "block_type") as [bt|e0] eqn:Hloc;
    simpl; [|by exists e0].
  apply loc_nonempty, iterrows_cons in Hloc as (tr & rows & ->).
  destruct (env_new env_fn bt) as [e|e0]; simpl; [|by exists e0].
  destruct (agent_new agent e params) as [s|e0]; simpl; [|by exists e0].
  destruct (sim_trial_unknown_getter k tr e s g d
              (nan_frame (nrows block_data)
                         (env_fn_voi env_fn ++ agent_voi agent)) Hk Hget)
    as [e0 ->].
  by exists e0.
Qed.

(** X17. A hook registered under a name whose getter the agent lacks
    makes every later [sim] fail: no simulation returns, whatever the
    dataset, the parameters and the random source, so a bad name shows
    at the first simulated trial and never as a silently empty log. *)
Theorem unknown_hook_never_returns
    (args : list string) (k : string) (self : wrapper.t)
    (data : wrapper.dataset) (params : list R) (g : rng) :
  k ∈ args →
  (∀ s, raises (agent_get agent k s)) →
  raises (wrapper.sim agent env_fn data params g
            (wrapper.register_hooks args self)).
Proof.
  intros Hk Hget.
  destruct (register_hooks_fresh args self) as (Hh & d & Hi & Hkeys & _).
  apply Hkeys in Hk. unfold wrapper.sim.
  destruct data as [|kb data]; [by exists ValueError |].
  cbn [for_each]. cbv zeta.
  destruct (sim_block_unknown_getter k
              (foldl (λ block_data v,
                        if decide (v ∈ column_names block_data)
                        then drop_column v block_data else block_data)
                     kb.2 (env_fn_voi env_fn))
              params g _ d Hh Hi Hk Hget) as [e0 ->].
  by exists e0.
Qed.

(** A trial of a simulation without hooks leaves the insights alone. *)
Lemma sim_trial_no_hook (tr : nat * row) (e e' : env) (s s' : subj)
    (g g' : rng) ins ins' (pred_data pred_data' : DataFrame) :
  wrapper.sim_trial agent env_fn false tr (e, s, g, ins, pred_data)
    = Ok (e', s', g', ins', pred_data') →
  ins' = ins.
Proof.
  unfold wrapper.sim_trial. destruct tr as [t r].
  destruct (sim_fn env_fn r s g e) as [[[[e1 s1] g1] subj_voi]|];
    simpl; [|done].
  destruct (for_each _ (agent_voi agent) pred_data) as [p1|]; simpl; [|done].
  destruct (for_each _ (enumerate _) p1) as [p2|]; simpl; [|done].
  by intros [= <- <- <- <- <-].
Qed.

Lemma sim_loop_no_hook (rows : list (nat * row)) :
  ∀ (e e' : env) (s s' : subj) (g g' : rng) ins ins'
    (pred_data pred_data' : DataFrame),
    for_each (wrapper.sim_trial agent env_fn false) rows
             (e, s, g, ins, pred_data)
      = Ok (e', s', g', ins', pred_data') →
    ins' = ins.
Proof.
  induction rows as [|tr rows IH]; intros e e' s s' g g' ins ins' p p'.
  - simpl. by intros [= <- <- <- <- <-].
  - cbn [for_each].
    destruct (wrapper.sim_trial agent env_fn false tr (e, s, g, ins, p))
      as [[[[[e1 s1] g1] ins1] p1]|] eqn:H1; simpl; [|done].
    apply sim_trial_no_hook in H1 as ->. apply IH.
Qed.

Lemma sim_block_no_hook (block_data : DataFrame) (params : list R)
    (g g' : rng) (self self' : wrapper.t) (out : DataFrame) :
  wrapper.use_hook self = false →
  wrapper.sim_block agent env_fn block_data params g self
    = Ok (self', g', out) →
  self' = self.
Proof.
  intros Hh. unfold wrapper.sim_block. rewrite Hh.
  destruct (loc block_data 0 "block_type") as [bt|]; simpl; [|done].
  destruct (env_new env_fn bt) as [e|]; simpl; [|done].
  destruct (agent_new agent e params) as [s|]; simpl; [|done].
  destruct (for_each _ _ _) as [[[[[e1 s1] g1] ins1] p1]|] eqn:Hloop;
    simpl; [|done].
  apply sim_loop_no_hook in Hloop as ->.
  intros [= <- <- <-]. destruct self; simpl in *. by subst.
Qed.

(** X18. Without registered hooks a simulation leaves the wrapper as it
    found it: nothing is recorded and recording stays off. *)
Theorem sim_without_hooks (data : wrapper.dataset) (params : list R)
    (g g' : rng) (self self' : wrapper.t) (out : DataFrame) :
  wrapper.use_hook self = false →
  wrapper.sim agent env_fn data params g self = Ok (self', g', out) →
  self' = self.
Proof.
  intros Hh. unfold wrapper.sim.
  destruct (for_each _ data _) as [[[self1 g1] sim_data]|] eqn:Hloop;
    simpl; [|done].
  destruct (concat_rows sim_data); simpl; [|done].
  intros [= <- <- <-].
  assert (H : ∀ acc acc' selfa selfb ga gb,
             wrapper.use_hook selfa = false →
             for_each (λ kb '(self, g, sim_data),
                  let block_data := kb.2 in
                  let block_data :=
                    foldl (λ block_data v,
                             if decide (v ∈ column_names block_data)
                             then drop_column v block_data
                             else block_data)
                          block_data (env_fn_voi env_fn) in
                  '(self, g, out) ←
                    wrapper.sim_block agent env_fn block_data params g self;
                  mret (self, g, sim_data ++ [out]))
               data (selfa, ga, acc) = Ok (selfb, gb, acc') →
             selfb = selfa).
  { clear. induction data as [|kb data IH]; intros acc acc' sa sb ga gb Hh.
    - simpl. by intros [= <- <- <-].
    - cbn [for_each]. cbv zeta.
      destruct (wrapper.sim_block _ _ _ _ _ _) as [[[s1 g1] out]|] eqn:Hb;
        simpl; [|done].
      apply sim_block_no_hook in Hb as ->; [|done]. by apply IH. }
  by eapply H.
Qed.

End hook_failures.

Lemma unknown_hook_never_returns_witness :
  "speed"%string ∈ ["pS1"; "speed"]%string
  ∧ (∀ s, raises (agent_get (RL_class (env := toy_env.t)) "speed" s))
  ∧ raises (wrapper.sim RL_class toy_env.cls
              [("b1"%string, toy_env.block 2)] [0; 0] 0%nat
              (wrapper.register_hooks ["pS1"; "speed"]%string wrapper.init)).
Proof.
  assert (H1 : "speed"%string ∈ ["pS1"; "speed"]%string)
    by (apply elem_of_cons; right; apply elem_of_cons; by left).
  assert (H2 : ∀ s, raises (agent_get (RL_class (env := toy_env.t)) "speed" s))
    by (intros s; by eexists).
  exact (conj H1 (conj H2
           (unknown_hook_never_returns RL_class toy_env.cls _ _ _ _ _ _ H1 H2))).
Defined.

Lemma sim_without_hooks_witness :
  ∃ self' g' out,
    wrapper.use_hook wrapper.init = false
    ∧ wrapper.sim RL_class toy_env.cls [("b1"%string, toy_env.block 2)]
        [0; 0] 0%nat wrapper.init = Ok (self', g', out)
    ∧ self' = wrapper.init.
Proof.
  eexists _, _, _. split; [reflexivity |]. split; [reflexivity |].
  eapply (sim_without_hooks RL_class toy_env.cls
            [("b1"%string, toy_env.block 2)] [0; 0] 0%nat);
    reflexivity.
Defined.

(** ** The tables returned *)

Lemma elem_of_first_occurrences (x : string) (l : list string) :
  x ∈ first_occurrences l ↔ x ∈ l.
Proof.
  induction l as [|a l IH]; [done |].
  simpl. rewrite !elem_of_cons, list_elem_of_filter, IH.
  destruct (decide (x = a)); tauto.
Qed.

Lemma concat_rows_ok (frames : list DataFrame) (out : DataFrame) :
  concat_rows frames = Ok out →
  frames ≠ []
  ∧ nrows out = sum_list (nrows <$> frames)
  ∧ ∀ x, x ∈ column_names out ↔ ∃ fr, fr ∈ frames ∧ x ∈ column_names fr.
Proof.
  intros H.
  assert (Hout : frames ≠ [] ∧
            out = {| nrows := sum_list (nrows <$> frames);
                     columns := map (λ c, (c, frames ≫= column_or_nan c))
                       (first_occurrences (frames ≫= column_names)) |}).
  { destruct frames; [done |]. unfold concat_rows in H.
    by injection H as <-. }
  clear H. destruct Hout as [Hne ->]. split; [done |]. split; [done |].
  intros x. unfold column_names at 1. cbn [columns].
  assert (Hid : ∀ l : list string,
            (map (λ c, (c, frames ≫= column_or_nan c)) l).*1 = l).
  { intros l. induction l as [|c l IH]; [done |]. simpl. by f_equal. }
  rewrite Hid, elem_of_first_occurrences, list_elem_of_bind.
  split; intros (fr' & H1 & H2); by exists fr'.
Qed.

Section table_facts.

Context {env subj rng : Type}.
Variable agent : agent_class env subj.
Variable env_fn : env_class env subj rng.

Lemma eval_block_ok (block_data out : DataFrame) (params : list R) :
  wrapper.eval_block agent env_fn block_data params = Ok out →
  nrows out = nrows block_data
  ∧ (0 < nrows block_data)%nat
  ∧ "ll"%string ∈ column_names out.
Proof.
  intros H. assert (Hpos : (0 < nrows block_data)%nat).
  { unfold wrapper.eval_block in H.
    destruct (loc block_data 0 "block_type") eqn:Hloc; [|done].
    by eapply loc_nonempty. }
  rewrite eval_block_block_scores in H.
  destruct (block_scores agent env_fn params block_data) as [lls|];
    simpl in H; [|done].
  injection H as <-. split; [done |]. split; [done |].
  unfold column_names. cbn [columns]. rewrite fmap_app, elem_of_app. right.
  simpl. apply elem_of_cons. by left.
Qed.

(** X19. When [eval] returns, the dataset was not empty, every block
    had at least one trial, the table returned has one row per trial of
    the dataset and it has a column [ll]. *)
Theorem eval_table (data : wrapper.dataset) (params : list R)
    (out : DataFrame) :
  wrapper.eval agent env_fn data params = Ok out →
  data ≠ []
  ∧ Forall (λ kb, (0 < nrows kb.2)%nat) data
  ∧ nrows out = ntrials data
  ∧ "ll"%string ∈ column_names out.
Proof.
  unfold wrapper.eval.
  destruct (mapM _ data) as [frames|] eqn:Hmap; simpl; [|done].
  intros (Hne & Hn & Hcols)%concat_rows_ok.
  assert (H2 : Forall2 (λ kb fr, nrows fr = nrows kb.2
                                 ∧ (0 < nrows kb.2)%nat
                                 ∧ "ll"%string ∈ column_names fr)
                       data frames).
  { clear Hne Hn Hcols. revert frames Hmap.
    induction data as [|kb data IH]; intros frames; simpl.
    - intros [= <-]. constructor.
    - destruct (wrapper.eval_block agent env_fn kb.2 params) as [fr|] eqn:Hb;
        simpl; [|done].
      destruct (mapM _ data) as [frs|]; simpl; [|done].
      intros [= <-]. constructor; [by apply eval_block_ok in Hb | by apply IH]. }
  split; [intros ->; inversion H2; by subst |].
  split.
  { clear -H2. induction H2 as [|kb fr data frames (_ & Hp & _) _ IH];
      [apply Forall_nil_2 | by apply Forall_cons_2]. }
  split.
  - rewrite Hn. unfold ntrials. clear Hne Hn Hcols Hmap.
    induction H2 as [|kb fr data frames (Hr & _) _ IH]; [done |].
    simpl. rewrite Hr. f_equal. exact IH.
  - apply Hcols. destruct H2 as [|kb fr data frames (_ & _ & Hll) _]; [done |].
    exists fr. split; [apply elem_of_cons; by left | done].
Qed.

Lemma sim_block_ok (block_data out : DataFrame) (params : list R)
    (g g' : rng) (self self' : wrapper.t) :
  wrapper.sim_block agent env_fn block_data params g self
    = Ok (self', g', out) →
  nrows out = nrows block_data ∧ (0 < nrows block_data)%nat.
Proof.
  unfold wrapper.sim_block.
  destruct (loc block_data 0 "block_type") as [bt|] eqn:Hloc; simpl; [|done].
  apply loc_nonempty in Hloc.
  destruct (env_new env_fn bt) as [e|]; simpl; [|done].
  destruct (agent_new agent e params) as [s|]; simpl; [|done].
  destruct (for_each _ _ _) as [[[[[e1 s1] g1] ins1] p1]|]; simpl; [|done].
  by intros [= <- <- <-].
Qed.

(** X20. When [sim] returns, the dataset was not empty, every block had
    at least one trial, and the table returned has one row per trial of
    the dataset. *)
Theorem sim_table (data : wrapper.dataset) (params : list R) (g g' : rng)
    (self self' : wrapper.t) (out : DataFrame) :
  wrapper.sim agent env_fn data params g self = Ok (self', g', out) →
  data ≠ []
  ∧ Forall (λ kb, (0 < nrows kb.2)%nat) data
  ∧ nrows out = ntrials data.
Proof.
  unfold wrapper.sim.
  destruct (for_each _ data _) as [[[self1 g1] sim_data]|] eqn:Hloop;
    simpl; [|done].
  destruct (concat_rows sim_data) as [out'|] eqn:Hcat; simpl; [|done].
  intros [= <- <- <-]. apply concat_rows_ok in Hcat as (Hne & Hn & _).
  assert (H : ∀ acc acc' sa sb ga gb,
             for_each (λ kb '(self, g, sim_data),
                  let block_data := kb.2 in
                  let block_data :=
                    foldl (λ block_data v,
                             if decide (v ∈ column_names block_data)
                             then drop_column v block_data
                             else block_data)
                          block_data (env_fn_voi env_fn) in
                  '(self, g, out) ←
                    wrapper.sim_block agent env_fn block_data params g self;
                  mret (self, g, sim_data ++ [out]))
               data (sa, ga, acc) = Ok (sb, gb, acc') →
             ∃ new, acc' = acc ++ new
                    ∧ Forall2 (λ kb fr, nrows fr = nrows kb.2
                                        ∧ (0 < nrows kb.2)%nat) data new).
  { clear. induction data as [|kb data IH]; intros acc acc' sa sb ga gb.
    - simpl. intros [= <- <- <-]. exists []. by rewrite app_nil_r.
    - cbn [for_each]. cbv zeta.
      destruct (wrapper.sim_block _ _ _ _ _ _) as [[[s1 g1] fr]|] eqn:Hb;
        simpl; [|done].
      apply sim_block_ok in Hb. rewrite drop_columns_nrows in Hb.
      intros (new & -> & Hnew)%IH. exists (fr :: new).
      split; [by rewrite <- app_assoc | by constructor]. }
  apply H in Hloop as (new & -> & H2). simpl in *.
  split; [intros ->; inversion H2; by subst |].
  split.
  { clear -H2. induction H2 as [|kb fr data new (_ & Hp) _ IH];
      [apply Forall_nil_2 | by apply Forall_cons_2]. }
  rewrite Hn. unfold ntrials. clear -H2.
  induction H2 as [|kb fr data new (Hr & _) _ IH]; [done |].
  simpl. rewrite Hr. f_equal. exact IH.
Qed.

End table_facts.

Lemma eval_table_witness :
  ∃ out,
    wrapper.eval RL_class toy_env.cls
      [("b1"%string, toy_env.block 2); ("b2"%string, toy_env.block 1)] [0; 0]
      = Ok out
    ∧ [("b1"%string, toy_env.block 2); ("b2"%string, toy_env.block 1)] ≠ []
    ∧ Forall (λ kb : string * DataFrame, (0 < nrows kb.2)%nat)
             [("b1"%string, toy_env.block 2); ("b2"%string, toy_env.block 1)]
    ∧ nrows out
      = ntrials [("b1"%string, toy_env.block 2); ("b2"%string, toy_env.block 1)]
    ∧ "ll"%string ∈ column_names out.
Proof.
  eexists. split; [reflexivity |].
  by apply (eval_table RL_class toy_env.cls _ [0; 0]).
Defined.

Lemma sim_table_witness :
  ∃ self' g' out,
    wrapper.sim RL_class toy_env.cls
      [("b1"%string, toy_env.block 2); ("b2"%string, toy_env.block 1)] [0; 0]
      0%nat wrapper.init = Ok (self', g', out)
    ∧ [("b1"%string, toy_env.block 2); ("b2"%string, toy_env.block 1)] ≠ []
    ∧ Forall (λ kb : string * DataFrame, (0 < nrows kb.2)%nat)
             [("b1"%string, toy_env.block 2); ("b2"%string, toy_env.block 1)]
    ∧ nrows out
      = ntrials [("b1"%string, toy_env.block 2); ("b2"%string, toy_env.block 1)].
Proof.
  eexists _, _, _. split; [reflexivity |].
  by eapply (sim_table RL_class toy_env.cls _ [0; 0] 0%nat _ wrapper.init).
Defined.

(** ** Stripping the generated columns *)

Lemma filter_drop_then_rest (v : string) (vs : list string)
    (l : list (string * list cell)) :
  filter (λ c, c.1 ∉ vs) (filter (λ c, c.1 ≠ v) l)
  = filter (λ c, c.1 ∉ v :: vs) l.
Proof.
  induction l as [|c l IH]; [done |].
  rewrite (filter_cons _ c l), (filter_cons (λ c, c.1 ∉ v :: vs) c l).
  destruct (decide (c.1 ≠ v)) as [Hne|Heq].
  - rewrite filter_cons, IH.
    destruct (decide (c.1 ∉ vs)) as [Hn|Hi].
    + rewrite decide_True; [done |]. rewrite not_elem_of_cons. done.
    + rewrite decide_False; [done |]. rewrite not_elem_of_cons. tauto.
  - rewrite IH, decide_False; [done |]. rewrite not_elem_of_cons.
    intros [? _]. done.
Qed.

Lemma filter_absent_column (v : string) (vs : list string)
    (l : list (string * list cell)) :
  v ∉ l.*1 →
  filter (λ c, c.1 ∉ vs) l = filter (λ c, c.1 ∉ v :: vs) l.
Proof.
  induction l as [|c l IH]; [done |]. simpl.
  rewrite not_elem_of_cons. intros [Hne Hl].
  rewrite (filter_cons _ c l), (filter_cons (λ c, c.1 ∉ v :: vs) c l), IH by done.
  destruct (decide (c.1 ∉ vs)) as [Hn|Hi].
  - rewrite decide_True; [done |]. rewrite not_elem_of_cons. done.
  - rewrite decide_False; [done |]. rewrite not_elem_of_cons. tauto.
Qed.

Lemma filter_no_columns (l : list (string * list cell)) :
  filter (λ c, c.1 ∉ @nil string) l = l.
Proof.
  induction l as [|c l IH]; [done |].
  rewrite filter_cons, decide_True, IH; [done |]. apply not_elem_of_nil.
Qed.

(** The loop of [sim] that drops the colliding columns is a filter. *)
Lemma strip_columns (vs : list string) (df : DataFrame) :
  foldl (λ block_data v,
           if decide (v ∈ column_names block_data)
           then drop_column v block_data else block_data)
        df vs
  = without_columns vs df.
Proof.
  revert df. induction vs as [|v vs IH]; intros df.
  - unfold without_columns. simpl. rewrite filter_no_columns. by destruct df.
  - simpl. rewrite IH. unfold without_columns, drop_column, column_names.
    destruct (decide (v ∈ (columns df).*1)) as [Hin|Hout]; simpl.
    + by rewrite filter_drop_then_rest.
    + by rewrite (filter_absent_column v).
Qed.

Lemma without_columns_idemp (vs : list string) (df : DataFrame) :
  without_columns vs (without_columns vs df) = without_columns vs df.
Proof.
  unfold without_columns. simpl. f_equal.
  induction (columns df) as [|c l IH]; [done |].
  rewrite (filter_cons _ c l). destruct (decide (c.1 ∉ vs)) as [Hn|Hi].
  - rewrite filter_cons, decide_True, IH; done.
  - exact IH.
Qed.

Lemma without_columns_names (vs : list string) (df : DataFrame) :
  Forall (λ v, v ∉ column_names (without_columns vs df)) vs.
Proof.
  apply Forall_forall. intros v Hv. unfold column_names, without_columns.
  simpl. intros [c [-> Hc]]%list_elem_of_fmap.
  apply list_elem_of_filter in Hc as [Hn _]. done.
Qed.

Section strip_facts.

Context {env subj rng : Type}.
Variable agent : agent_class env subj.
Variable env_fn : env_class env subj rng.

(** X21. Before a block is simulated, [sim] removes from the trial data
    exactly the columns named like a variable the environment generates
    and keeps the others in order; the simulation is the same as on a
    dataset from which these columns were removed beforehand, so observed
    values of the generated variables never reach it. *)
Theorem sim_ignores_generated_columns
    (data : wrapper.dataset) (params : list R) (g : rng) (self : wrapper.t) :
  let stripped :=
    map (λ kb, (kb.1, without_columns (env_fn_voi env_fn) kb.2)) data in
  wrapper.sim agent env_fn data params g self
  = wrapper.sim agent env_fn stripped params g self
  ∧ Forall (λ kb, Forall (λ v, v ∉ column_names kb.2) (env_fn_voi env_fn))
           stripped
  ∧ Forall2 (λ kb kb', ∀ c, c ∈ columns kb'.2 ↔
                            c ∈ columns kb.2 ∧ c.1 ∉ env_fn_voi env_fn)
            data stripped.
Proof.
  intros stripped. split; [|split].
  - unfold wrapper.sim. f_equal. subst stripped.
    set (body := λ (kb : string * DataFrame)
                   '((self, g, sim_data) : wrapper.t * rng * list DataFrame),
           let block_data := kb.2 in
           let block_data :=
             foldl (λ block_data v,
                      if decide (v ∈ column_names block_data)
                      then drop_column v block_data else block_data)
                   block_data (env_fn_voi env_fn) in
           '(self, g, out) ←
             wrapper.sim_block agent env_fn block_data params g self;
           mret (self, g, sim_data ++ [out])).
    change (for_each body data (self, g, [])
            = for_each body
                (map (λ kb, (kb.1, without_columns (env_fn_voi env_fn) kb.2))
                     data) (self, g, [])).
    assert (Hbody : ∀ kb st,
              body (kb.1, without_columns (env_fn_voi env_fn) kb.2) st
              = body kb st).
    { intros kb [[s0 g0] acc0]. unfold body. cbv zeta. cbn [snd].
      by rewrite !strip_columns, without_columns_idemp. }
    generalize (@nil DataFrame). revert self g. clearbody body.
    induction data as [|kb data IH]; intros self g acc; [done |].
    cbn [map for_each]. rewrite Hbody.
    destruct (body kb (self, g, acc)) as [[[s1 g1] acc1]|]; simpl; [|done].
    apply IH.
  - subst stripped. apply Forall_forall.
    intros kb' [kb [-> _]]%list_elem_of_fmap. apply without_columns_names.
  - subst stripped. induction data as [|kb data IH]; constructor; [|done].
    intros c. unfold without_columns. simpl. rewrite list_elem_of_filter. tauto.
Qed.

End strip_facts.

(** ** Blocks and datasets without trials *)

Lemma loc_empty (df : DataFrame) (name : string) :
  nrows df = 0%nat → ∃ k, loc df 0 name = Raise (KeyError k).
Proof.
  intros H. unfold loc. rewrite H.
  destruct (list_find _ _) as [[? [? ?]]|]; by eexists.
Qed.

Lemma loc_no_column (df : DataFrame) (name : string) :
  name ∉ column_names df → loc df 0 name = Raise (KeyError name).
Proof.
  intros Hc. unfold loc.
  assert (list_find (λ c, c.1 = name) (columns df) = None) as ->; [|done].
  apply list_find_None, Forall_forall. intros c Hin Heq. apply Hc.
  unfold column_names. apply list_elem_of_fmap. by exists c.
Qed.

Section degenerate_inputs.

Context {env subj rng : Type}.
Variable agent : agent_class env subj.
Variable env_fn : env_class env subj rng.

(** X22. A block without trials, or without a column [block_type],
    cannot be scored, evaluated or simulated: reading the block type from
    the row labelled 0 raises a [KeyError], the same in the three
    operations, before the environment or the agent is built. *)
Theorem block_type_unreadable (block_data : DataFrame) (params : list R)
    (g : rng) (self : wrapper.t) :
  nrows block_data = 0%nat ∨ "block_type"%string ∉ column_names block_data →
  ∃ k,
    wrapper.loglike agent env_fn params block_data = Raise (KeyError k)
    ∧ wrapper.eval_block agent env_fn block_data params = Raise (KeyError k)
    ∧ wrapper.sim_block agent env_fn block_data params g self
      = Raise (KeyError k).
Proof.
  intros H.
  assert (∃ k, loc block_data 0 "block_type" = Raise (KeyError k))
    as [k Hloc].
  { destruct H as [H0|Hc].
    - by apply loc_empty.
    - eexists. by apply loc_no_column. }
  exists k. unfold wrapper.loglike, wrapper.eval_block, wrapper.sim_block.
  by rewrite Hloc.
Qed.

(** X23. On a dataset without blocks the loss is zero, while [eval] and
    [sim] raise [ValueError]: there is no table to concatenate. *)
Theorem empty_dataset (params : list R) (g : rng) (self : wrapper.t) :
  wrapper.loss_fn agent env_fn params [] None = Ok (fin 0)
  ∧ wrapper.eval agent env_fn [] params = Raise ValueError
  ∧ wrapper.sim agent env_fn [] params g self = Raise ValueError.
Proof.
  split; [|done]. unfold wrapper.loss_fn. simpl. do 2 f_equal. lra.
Qed.

End degenerate_inputs.

Lemma block_type_unreadable_witness :
  let empty := {| nrows := 0; columns := [("block_type"%string, [])] |} in
  (nrows empty = 0%nat ∨ "block_type"%string ∉ column_names empty)
  ∧ ∃ k,
      wrapper.loglike RL_class toy_env.cls [0; 0] empty = Raise (KeyError k)
      ∧ wrapper.eval_block RL_class toy_env.cls empty [0; 0]
        = Raise (KeyError k)
      ∧ wrapper.sim_block RL_class toy_env.cls empty [0; 0] 0%nat wrapper.init
        = Raise (KeyError k).
Proof.
  intros empty.
  assert (H : nrows empty = 0%nat ∨ "block_type"%string ∉ column_names empty)
    by (by left).
  exact (conj H (block_type_unreadable RL_class toy_env.cls empty [0; 0]
                   0%nat wrapper.init H)).
Defined.

(** ** Priors and the loss *)

Lemma zip_with_floored (params : list R) (p_priors : list prior) :
  map (λ pp, floored_logpdf pp.1 pp.2) (zip p_priors params)
  = zip_with floored_logpdf p_priors params.
Proof.
  unfold zip. revert params.
  induction p_priors as [|pri ps IH]; intros [|x xs]; simpl; try done.
  by rewrite IH.
Qed.

Lemma logprior_fsum (params : list R) (p_priors : list prior) :
  wrapper.logprior params p_priors
  = fsum (zip_with floored_logpdf p_priors params).
Proof.
  unfold wrapper.logprior.
  rewrite logprior_foldl, zip_with_floored. apply fadd_0_l.
Qed.

Lemma logprior_lower (params : list R) (p_priors : list prior) :
  fle (fin (- max_ * INR (length params))) (wrapper.logprior params p_priors).
Proof.
  rewrite logprior_fsum.
  assert (Hall : Forall (fle (fin (- max_)))
                        (zip_with floored_logpdf p_priors params)).
  { rewrite <- zip_with_floored. apply Forall_fmap, Forall_forall.
    intros [pri x] _. apply floored_logpdf_ge. }
  eapply fle_fin_trans; [| apply fsum_ge, Hall].
  assert (Hlen : (length (zip_with floored_logpdf p_priors params)
                  ≤ length params)%nat) by (rewrite length_zip_with; lia).
  apply le_INR in Hlen. unfold max_.
  assert (0 <= 10 ^ 13) by (apply pow_le; lra). nra.
Qed.

Section loss_facts.

Context {env subj rng : Type}.
Variable agent : agent_class env subj.
Variable env_fn : env_class env subj rng.

Lemma mapM_loglike (params : list R) (data : wrapper.dataset)
    (lss : list (list R)) :
  Forall2 (λ kb ls, block_scores agent env_fn params kb.2 = Ok ls) data lss →
  mapM (λ kb, wrapper.loglike agent env_fn params kb.2) data
  = Ok (np_sum <$> lss).
Proof.
  induction 1 as [|kb ls data lss Hkb _ IH]; [done |].
  simpl in *. rewrite loglike_block_scores, Hkb. simpl. by rewrite IH.
Qed.

(** X24. With priors the loss is the negated log-likelihood minus the
    log-prior.  Because every prior term is floored, the penalty a prior
    can add is bounded: the loss is never nan and is at most the
    likelihood loss plus 1e13 times the number of parameters. *)
Theorem loss_fn_with_priors
    (params : list R) (data : wrapper.dataset) (lss : list (list R))
    (p_priors : list prior) :
  Forall2 (λ kb ls, block_scores agent env_fn params kb.2 = Ok ls) data lss →
  ∃ v,
    wrapper.loss_fn agent env_fn params data (Some p_priors) = Ok v
    ∧ v = fadd (fin (- np_sum (np_sum <$> lss)))
               (fneg (wrapper.logprior params p_priors))
    ∧ v ≠ nan
    ∧ fle v (fin (- np_sum (np_sum <$> lss) + 10 ^ 13 * INR (length params))).
Proof.
  intros Hall. unfold wrapper.loss_fn. rewrite (mapM_loglike _ _ _ Hall).
  simpl. eexists. split; [reflexivity |]. split; [done |].
  pose proof (logprior_lower params p_priors) as Hlow. unfold max_ in Hlow.
  destruct (wrapper.logprior params p_priors); simpl in *; try done.
  split; [done | lra].
Qed.

(** X25. An empty list of priors gives the same loss as no prior. *)
Theorem loss_fn_empty_priors (params : list R) (data : wrapper.dataset) :
  wrapper.loss_fn agent env_fn params data (Some [])
  = wrapper.loss_fn agent env_fn params data None.
Proof.
  unfold wrapper.loss_fn. destruct (mapM _ data) as [lls|]; simpl; [|done].
  do 2 f_equal. lra.
Qed.

(** X26. The loss fails with the exception of the first block whose
    log-likelihood fails, priors or not; the later blocks are not
    scored. *)
Theorem loss_fn_first_failure
    (params : list R) (pre post : wrapper.dataset) (key : string)
    (block_data : DataFrame) (e : exn) (p_priors : option (list prior)) :
  Forall (λ kb, ∃ ll, wrapper.loglike agent env_fn params kb.2 = Ok ll) pre →
  wrapper.loglike agent env_fn params block_data = Raise e →
  wrapper.loss_fn agent env_fn params (pre ++ (key, block_data) :: post)
                  p_priors
  = Raise e.
Proof.
  intros Hpre Hb. unfold wrapper.loss_fn.
  assert (mapM (λ kb, wrapper.loglike agent env_fn params kb.2)
               (pre ++ (key, block_data) :: post) = Raise e) as ->; [|done].
  induction Hpre as [|kb pre [ll Hll] _ IH]; simpl.
  - by rewrite Hb.
  - by rewrite Hll, IH.
Qed.

End loss_facts.

Lemma loss_fn_with_priors_witness :
  ∃ lss,
    Forall2 (λ kb ls, block_scores RL_class toy_env.cls [0; 0] kb.2 = Ok ls)
            [("b1"%string, toy_env.block 2)] lss
    ∧ ∃ v,
        wrapper.loss_fn RL_class toy_env.cls [0; 0]
          [("b1"%string, toy_env.block 2)]
          (Some [{| logpdf := λ _, LNegInf |}; {| logpdf := λ x, LFin (- x) |}])
        = Ok v
        ∧ v = fadd (fin (- np_sum (np_sum <$> lss)))
                   (fneg (wrapper.logprior [0; 0]
                      [{| logpdf := λ _, LNegInf |};
                       {| logpdf := λ x, LFin (- x) |}]))
        ∧ v ≠ nan
        ∧ fle v (fin (- np_sum (np_sum <$> lss)
                      + 10 ^ 13 * INR (length [0; 0]))).
Proof.
  eexists.
  refine (let H := _ in
          conj H (loss_fn_with_priors RL_class toy_env.cls _ _ _ _ H)).
  repeat constructor.
Defined.

Lemma loss_fn_first_failure_witness :
  Forall (λ kb : string * DataFrame,
            ∃ ll, wrapper.loglike RL_class toy_env.cls [0; 0] kb.2 = Ok ll)
         [("b1"%string, toy_env.block 1)]
  ∧ wrapper.loglike RL_class toy_env.cls [0; 0] (toy_env.block 0)
    = Raise (KeyError "0")
  ∧ wrapper.loss_fn RL_class toy_env.cls [0; 0]
      ([("b1"%string, toy_env.block 1)]
       ++ ("b2"%string, toy_env.block 0) :: [("b3"%string, toy_env.block 2)])
      None
    = Raise (KeyError "0").
Proof.
  assert (H1 : Forall (λ kb : string * DataFrame,
                  ∃ ll, wrapper.loglike RL_class toy_env.cls [0; 0] kb.2 = Ok ll)
                 [("b1"%string, toy_env.block 1)])
    by (repeat constructor; by eexists).
  assert (H2 : wrapper.loglike RL_class toy_env.cls [0; 0] (toy_env.block 0)
               = Raise (KeyError "0")) by reflexivity.
  exact (conj H1 (conj H2
           (loss_fn_first_failure RL_class toy_env.cls [0; 0] _ _ "b2" _ _
              None H1 H2))).
Defined.

(** X27. Where no term reaches the floor, that is where every prior has
    a finite log-density of at least -1e13 at its parameter, the
    log-prior is the plain sum of the log-densities. *)
Theorem logprior_unfloored (params : list R) (p_priors : list prior)
    (rs : list R) :
  Forall2 (λ pp r, logpdf pp.1 pp.2 = LFin r ∧ - 10 ^ 13 <= r)
          (zip p_priors params) rs →
  wrapper.logprior params p_priors = fin (np_sum rs).
Proof.
  intros H. rewrite logprior_fsum, <- zip_with_floored.
  induction H as [|[pri x] r l rs [Hr Hge] _ IH]; [done |].
  change (fadd (floored_logpdf pri x)
               (fsum (map (λ pp, floored_logpdf pp.1 pp.2) l))
          = fin (r + np_sum rs)).
  rewrite IH. unfold floored_logpdf. simpl in Hr. rewrite Hr. simpl.
  do 2 f_equal. apply Rmax_left. unfold max_. exact Hge.
Qed.

Lemma logprior_unfloored_witness :
  Forall2 (λ (pp : prior * R) r, logpdf pp.1 pp.2 = LFin r ∧ - 10 ^ 13 <= r)
          (zip [{| logpdf := λ x, LFin (- x) |}; {| logpdf := λ _, LFin 0 |}]
               [2; 5])
          [- 2; 0]
  ∧ wrapper.logprior [2; 5]
      [{| logpdf := λ x, LFin (- x) |}; {| logpdf := λ _, LFin 0 |}]
    = fin (np_sum [- 2; 0]).
Proof.
  assert (Hm : 0 <= 10 ^ 13) by (apply pow_le; lra).
  assert (H : Forall2 (λ (pp : prior * R) r,
                         logpdf pp.1 pp.2 = LFin r ∧ - 10 ^ 13 <= r)
                (zip [{| logpdf := λ x, LFin (- x) |}; {| logpdf := λ _, LFin 0 |}]
                     [2; 5])
                [- 2; 0]).
  { repeat constructor; simpl; lra. }
  exact (conj H (logprior_unfloored _ _ _ H)).
Defined.

(** X28. The log-prior pairs priors and parameters by position and stops
    at the shorter of the two: parameters without a prior are not
    penalised and priors without a parameter are not evaluated. *)
Theorem logprior_positional (params extra : list R)
    (p_priors extra_priors : list prior) :
  length p_priors = length params →
  wrapper.logprior (params ++ extra) p_priors
    = wrapper.logprior params p_priors
  ∧ wrapper.logprior params (p_priors ++ extra_priors)
    = wrapper.logprior params p_priors.
Proof.
  intros Hlen. rewrite !logprior_fsum.
  assert (H1 : zip_with floored_logpdf p_priors (params ++ extra)
               = zip_with floored_logpdf p_priors params).
  { revert params Hlen. induction p_priors as [|pri ps IH];
      intros [|x xs] Hlen; simpl in *; try done. f_equal. apply IH. lia. }
  assert (H2 : zip_with floored_logpdf (p_priors ++ extra_priors) params
               = zip_with floored_logpdf p_priors params).
  { clear H1. revert params Hlen. induction p_priors as [|pri ps IH];
      intros [|x xs] Hlen; simpl in *; try done.
    - by destruct extra_priors.
    - f_equal. apply IH. lia. }
  by rewrite H1, H2.
Qed.

Lemma logprior_positional_witness :
  length [{| logpdf := λ x, LFin (- x) |}] = length [2]
  ∧ wrapper.logprior ([2] ++ [7]) [{| logpdf := λ x, LFin (- x) |}]
    = wrapper.logprior [2] [{| logpdf := λ x, LFin (- x) |}]
  ∧ wrapper.logprior [2]
      ([{| logpdf := λ x, LFin (- x) |}] ++ [{| logpdf := λ _, LPosInf |}])
    = wrapper.logprior [2] [{| logpdf := λ x, LFin (- x) |}].
Proof.
  exact (conj eq_refl (logprior_positional [2] [7]
           [{| logpdf := λ x, LFin (- x) |}] [{| logpdf := λ _, LPosInf |}]
           eq_refl)).
Defined.
